(** * Verification of [evaluation/mteb_runner/encoders.py]

    A shallow embedding of the two benchmark adapters [StaticEmbedder] and
    [TorchEncoder].  Python exceptions are an explicit error monad, Python
    integers are [Z], lists are [list], tokens and paths are [string], and
    floating-point entries of arrays are idealised as real numbers ([R]):
    rounding, NaN and infinities are outside the model. *)

From Stdlib Require Import String Ascii Bool Arith ZArith Lia Reals Lra List.
Import ListNotations.

Set Implicit Arguments.

(** ** Python: exceptions, [range], slicing *)

Module Py.

Inductive exn : Type :=
| ValueError (msg : string)
| KeyError (msg : string)
| IndexError (msg : string)
| RuntimeError (msg : string)
| FileNotFoundError (msg : string).

Inductive result (A : Type) : Type :=
| Ok (a : A)
| Raise (e : exn).

Arguments Ok {A} a.
Arguments Raise {A} e.

Definition bind {A B : Type} (m : result A) (k : A -> result B) : result B :=
  match m with
  | Ok a => k a
  | Raise e => Raise e
  end.

(** [len(range(start, stop, step))] for a non-zero step, as CPython computes it. *)
Definition range_length (start stop step : Z) : nat :=
  if (0 <? step)%Z
  then (if (start <? stop)%Z then Z.to_nat ((stop - start - 1) / step + 1) else 0)
  else (if (stop <? start)%Z then Z.to_nat ((start - stop - 1) / (- step) + 1) else 0).

(** [range(start, stop, step)]: a zero step is a [ValueError]. *)
Definition range (start stop step : Z) : result (list Z) :=
  if (step =? 0)%Z
  then Raise (ValueError "range() arg 3 must not be zero")
  else Ok (map (fun k => (start + Z.of_nat k * step)%Z)
               (seq 0 (range_length start stop step))).

(** Index adjustment of a slice bound: a negative bound counts from the end,
    and every bound is clamped to [0, len]. *)
Definition adjust_index (len i : Z) : Z :=
  if (i <? 0)%Z then Z.max 0 (i + len) else Z.min i len.

(** [l[start:stop]] on a list. *)
Definition slice {A : Type} (l : list A) (start stop : Z) : list A :=
  let len := Z.of_nat (length l) in
  let a := adjust_index len start in
  let b := adjust_index len stop in
  firstn (Z.to_nat (b - a)) (skipn (Z.to_nat a) l).

(** [for x in xs: body], where the body threads an accumulator and may raise. *)
Definition for_each {A S : Type} (xs : list A) (body : S -> A -> result S)
    (init : S) : result S :=
  fold_left (fun acc x => bind acc (fun s => body s x)) xs (Ok init).

(** The list of the results of [f] on [xs], in order; the first exception
    stops it.  This is the reference behaviour of a loop that appends one
    result per element. *)
Fixpoint traverse {A B : Type} (f : A -> result B) (xs : list A) : result (list B) :=
  match xs with
  | [] => Ok []
  | x :: xs' =>
      match f x with
      | Raise e => Raise e
      | Ok y =>
          match traverse f xs' with
          | Raise e => Raise e
          | Ok ys => Ok (y :: ys)
          end
      end
  end.

End Py.

Import Py.

Declare Scope py_scope.
Delimit Scope py_scope with py.
Notation "x <- m ;; k" := (Py.bind m (fun x => k))
  (at level 61, m at next level, right associativity) : py_scope.
Local Open Scope py_scope.

(** ** NumPy / torch arrays *)

Module Np.

(** A one-dimensional array. *)
Definition vec : Type := list R.

(** A two-dimensional array of shape [(length rows, ncols)].  The column
    count is carried explicitly, as [shape[1]] is defined for an array with
    no rows too. *)
Record ndarray2 : Type := mk_ndarray2 {
  ncols : nat;
  rows : list vec
}.

Definition nrows (X : ndarray2) : nat := length (rows X).

(** Every row has [ncols] entries. *)
Definition rectangular (X : ndarray2) : Prop :=
  Forall (fun r => length r = ncols X) (rows X).

(** [np.zeros(n)] *)
Definition zeros (n : nat) : vec := repeat 0%R n.

Fixpoint vadd (u v : vec) : vec :=
  match u, v with
  | x :: u', y :: v' => (x + y)%R :: vadd u' v'
  | _, _ => []
  end.

Definition vsum (d : nat) (xs : list vec) : vec := fold_left vadd xs (zeros d).

(** [X.mean(0)]: the column-wise mean of the rows of [X]. *)
Definition mean0 (X : ndarray2) : vec :=
  map (fun s => (s / INR (nrows X))%R) (vsum (ncols X) (rows X)).

(** [np.stack(arrays)] on one-dimensional arrays. *)
Definition stack (arrays : list vec) : result ndarray2 :=
  match arrays with
  | [] => Raise (ValueError "need at least one array to stack")
  | a :: rest =>
      if forallb (fun b => length b =? length a) rest
      then Ok {| ncols := length a; rows := arrays |}
      else Raise (ValueError "all input arrays must have the same shape")
  end.

(** [np.log(np.arange(lo, hi))] for [hi = lo + n]. *)
Definition log_arange (lo n : nat) : vec := map (fun k => ln (INR k)) (seq lo n).

Definition scale (w : R) (row : vec) : vec := map (fun x => (x * w)%R) row.

Fixpoint scale_rows (xs : list vec) (ws : vec) : list vec :=
  match xs, ws with
  | row :: xs', w :: ws' => scale w row :: scale_rows xs' ws'
  | _, _ => []
  end.

(** [X *= w[:, None]]: in-place multiplication of an [(n, d)] array by an
    [(k, 1)] column.  Broadcasting needs [k = n] or [k = 1]. *)
Definition imul_column (X : ndarray2) (w : vec) : result ndarray2 :=
  if length w =? nrows X
  then Ok {| ncols := ncols X; rows := scale_rows (rows X) w |}
  else match w with
       | [w0] => Ok {| ncols := ncols X; rows := map (scale w0) (rows X) |}
       | _ => Raise (ValueError "operands could not be broadcast together")
       end.

(** [X[index]]: row selection by a list of indices. *)
Fixpoint take_rows (xs : list vec) (index : list nat) : result (list vec) :=
  match index with
  | [] => Ok []
  | i :: index' =>
      match nth_error xs i with
      | None => Raise (IndexError "index is out of bounds for axis 0")
      | Some row => rest <- take_rows xs index' ;; Ok (row :: rest)
      end
  end.

(** [torch.cat(tensors)] along dimension 0, on two-dimensional tensors. *)
Definition cat (tensors : list ndarray2) : result ndarray2 :=
  match tensors with
  | [] => Raise (RuntimeError "torch.cat(): expected a non-empty list of Tensors")
  | t :: rest =>
      if forallb (fun u => ncols u =? ncols t) rest
      then Ok {| ncols := ncols t; rows := concat (map rows tensors) |}
      else Raise (RuntimeError "Sizes of tensors must match except in dimension 0")
  end.

End Np.

Import Np.

(** ** The [reach] vector table

    The methods of [reach.Reach] that the adapters call, following the
    package's documented behaviour. *)

Module ReachLib.

(** [items] lists the tokens in index order ([sorted_items]); the dictionary
    [Reach.items] sends a token to its position in that list and
    [Reach.indices] is the inverse lookup. *)
Record Reach : Type := mk_Reach {
  items : list string;
  _vectors : ndarray2;
  unk_index : option nat;
  name : string
}.

Definition sorted_items (r : Reach) : list string := items r.

(** [len(reach)] *)
Definition len (r : Reach) : nat := length (items r).

(** [reach.size]: the dimensionality of the vectors, [vectors.shape[1]]. *)
Definition size (r : Reach) : nat := ncols (_vectors r).

Fixpoint index_of (token : string) (l : list string) : option nat :=
  match l with
  | [] => None
  | t :: l' => if String.eqb t token then Some 0 else option_map S (index_of token l')
  end.

(** [reach.items[token]] *)
Definition item_index (r : Reach) (token : string) : option nat :=
  index_of token (items r).

(** [token in reach.items] *)
Definition contains (r : Reach) (token : string) : bool :=
  match item_index r token with Some _ => true | None => false end.

(** [reach.indices[i]] *)
Definition index_item (r : Reach) (i : nat) : option string := nth_error (items r) i.

Definition set_vectors (r : Reach) (X : ndarray2) : Reach :=
  {| items := items r; _vectors := X; unk_index := unk_index r; name := name r |}.

(** The table's invariant: one row per token, every row of the table's size. *)
Definition well_formed (r : Reach) : Prop :=
  nrows (_vectors r) = len r /\ rectangular (_vectors r).

(** [reach.bow(tokens)] with [remove_oov=False]: out-of-vocabulary tokens are
    sent to [unk_index], or rejected when there is none. *)
Fixpoint bow (r : Reach) (tokens : list string) : result (list nat) :=
  match tokens with
  | [] => Ok []
  | t :: tokens' =>
      match item_index r t with
      | Some i => rest <- bow r tokens' ;; Ok (i :: rest)
      | None =>
          match unk_index r with
          | Some u => rest <- bow r tokens' ;; Ok (u :: rest)
          | None => Raise (ValueError "You supplied OOV items but didn't provide the index of the replacement glyph.")
          end
      end
  end.

(** [reach.vectorize(tokens)] with [remove_oov=False], [norm=False]. *)
Definition vectorize (r : Reach) (tokens : list string) : result ndarray2 :=
  match tokens with
  | [] => Raise (ValueError "You supplied an empty list.")
  | _ =>
      index <- bow r tokens ;;
      match index with
      | [] => Raise (ValueError "You supplied a list with only OOV tokens.")
      | _ =>
          selected <- take_rows (rows (_vectors r)) index ;;
          Ok {| ncols := size r; rows := selected |}
      end
  end.

(** [reach.mean_pool(tokens, safeguard=...)]: a [ValueError] of [vectorize]
    is re-raised under the safeguard and becomes a zero vector without it. *)
Definition mean_pool (r : Reach) (tokens : list string) (safeguard : bool)
    : result vec :=
  match vectorize r tokens with
  | Ok X => Ok (mean0 X)
  | Raise (ValueError msg) =>
      if safeguard then Raise (ValueError msg) else Ok (zeros (size r))
  | Raise e => Raise e
  end.

End ReachLib.

Import ReachLib.

(** ** [tokenlearn.model.utilities] *)

Module Utilities.

(** A tokenizer, as far as the adapters use it: [tokenizer.tokenize(text)]. *)
Record Tokenizer : Type := mk_Tokenizer {
  tokenize : string -> list string
}.

(** Modelled from the spec: [add_token_to_reach] (tokenlearn.model.utilities
    is not part of the sources at hand).  The spec has [from_vectors] insert
    the pad and unknown tokens, so that both are always present after
    construction, and designate the unknown token.  A token that is already
    in the table is kept where it is; a new token is appended with a zero
    vector of the table's size. *)
Definition add_token_to_reach (embeddings : Reach) (token : string)
    (set_as_unk : bool) : Reach :=
  let inserted :=
    if contains embeddings token then embeddings
    else {| items := items embeddings ++ [token];
            _vectors := {| ncols := size embeddings;
                           rows := rows (_vectors embeddings) ++ [zeros (size embeddings)] |};
            unk_index := unk_index embeddings;
            name := name embeddings |} in
  if set_as_unk
  then {| items := items inserted;
          _vectors := _vectors inserted;
          unk_index := item_index inserted token;
          name := name inserted |}
  else inserted.

End Utilities.

Import Utilities.

(** ** [StaticEmbedder] *)

Module StaticEmbedder.

Record t : Type := mk {
  vectors : Reach;
  tokenizer : Tokenizer;
  unk_token : string
}.

(** [StaticEmbedder.__init__]: [indices[unk_index]] is a [KeyError] when the
    table has no unknown index. *)
Definition __init__ (vectors : Reach) (tokenizer : Tokenizer) : result t :=
  match unk_index vectors with
  | None => Raise (KeyError "None")
  | Some u =>
      match index_item vectors u with
      | None => Raise (KeyError "unk_index")
      | Some tok => Ok {| vectors := vectors; tokenizer := tokenizer; unk_token := tok |}
      end
  end.

(** [[token for token in self.tokenizer.tokenize(text) if token != self.unk_token]] *)
Definition known_tokens (self : t) (text : string) : list string :=
  filter (fun token => negb (String.eqb token (unk_token self)))
         (tokenize (tokenizer self) text).

(** [StaticEmbedder.__call__] *)
Definition __call__ (self : t) (text : string) : result vec :=
  let tokens := known_tokens self text in
  mean_pool (vectors self) tokens false.

(** The body of the loop of [encode]: the vector of one sentence. *)
Definition encode_sentence (self : t) (sentence : string) : result vec :=
  let tokens := Py.slice (known_tokens self sentence) 0 512 in
  mean_pool (vectors self) tokens false.

(** In the spec's words: per sentence, tokenize, drop unknown tokens,
    truncate to the first 512 tokens. *)
Definition drop_then_truncate (self : t) (sentence : string) : list string :=
  firstn 512
    (filter (fun token => negb (String.eqb token (unk_token self)))
            (tokenize (tokenizer self) sentence)).

(** The other order, for comparison: keep the first 512 tokens, then drop the
    unknown ones. *)
Definition truncate_then_drop (self : t) (sentence : string) : list string :=
  filter (fun token => negb (String.eqb token (unk_token self)))
         (firstn 512 (tokenize (tokenizer self) sentence)).

(** [StaticEmbedder.encode] *)
Definition encode (self : t) (sentences : list string) : result ndarray2 :=
  output <- Py.for_each sentences
              (fun output sentence =>
                 vector <- encode_sentence self sentence ;;
                 Ok (output ++ [vector]))
              [] ;;
  Np.stack output.

Section FromVectors.

(** The collaborators of [from_vectors] that live outside this file: the
    vector-file loader, scikit-learn's PCA, the word-frequency table and the
    tokenizer constructor. *)
Variable safe_load_reach : string -> result Reach.
Variable PCA_fit_transform : nat -> ndarray2 -> result ndarray2.
Variable word_frequency : string -> string -> R.
Variable create_tokenizer_from_vocab : list string -> string -> string -> Tokenizer.

(** [weight[idx] = x].  The loop below only writes inside the array, so an
    index outside it, an [IndexError] in NumPy, is left without effect. *)
Fixpoint set_nth (idx : nat) (x : R) (w : vec) : vec :=
  match idx, w with
  | _, [] => []
  | 0, _ :: w' => x :: w'
  | S idx', y :: w' => y :: set_nth idx' x w'
  end.

(** [for idx, word in enumerate(sorted_items): weight[idx] = word_frequency(word, "en")] *)
Definition frequency_weights (embeddings : Reach) : vec :=
  fold_left (fun weight '(idx, word) => set_nth idx (word_frequency word "en") weight)
            (combine (seq 0 (length (sorted_items embeddings))) (sorted_items embeddings))
            (zeros (len embeddings)).

(** [StaticEmbedder.from_vectors] *)
Definition from_vectors (vector_path : string)
    (apply_pca apply_zipf apply_frequency : bool) : result t :=
  embeddings <- safe_load_reach vector_path ;;
  let embeddings := add_token_to_reach embeddings "[PAD]" false in
  let embeddings := add_token_to_reach embeddings "[UNK]" true in
  embeddings <- (if apply_pca && (300 <? size embeddings)
                 then X <- PCA_fit_transform 300 (_vectors embeddings) ;;
                      Ok (set_vectors embeddings X)
                 else Ok embeddings) ;;
  if apply_zipf && apply_frequency
  then Raise (ValueError "Cannot apply both zipf and frequency weighting.")
  else
    embeddings <- (if apply_zipf
                   then X <- imul_column (_vectors embeddings)
                                         (log_arange 1 (len embeddings)) ;;
                        Ok (set_vectors embeddings X)
                   else Ok embeddings) ;;
    embeddings <- (if apply_frequency
                   then X <- imul_column (_vectors embeddings)
                                         (map (fun w => ln (1 / w)%R)
                                              (frequency_weights embeddings)) ;;
                        Ok (set_vectors embeddings X)
                   else Ok embeddings) ;;
    let tokenizer := create_tokenizer_from_vocab (items embeddings) "[UNK]" "[PAD]" in
    __init__ embeddings tokenizer.

(** The table as it stands when the weighting flags are examined: loaded,
    with the two special tokens, and reduced by PCA when that applies. *)
Definition loaded_table (vector_path : string) (apply_pca : bool) : result Reach :=
  embeddings <- safe_load_reach vector_path ;;
  let embeddings := add_token_to_reach embeddings "[PAD]" false in
  let embeddings := add_token_to_reach embeddings "[UNK]" true in
  if apply_pca && (300 <? size embeddings)
  then X <- PCA_fit_transform 300 (_vectors embeddings) ;;
       Ok (set_vectors embeddings X)
  else Ok embeddings.

End FromVectors.

(** [StaticEmbedder.name]: the name of the vectors. *)
Definition name (self : t) : string := ReachLib.name (vectors self).

Section FromModel.

(** The collaborators of [from_model]: [AutoTokenizer.from_pretrained] and
    [create_input_embeddings_from_model_name].  The second argument of the
    latter is [None] when the call leaves [module_path] to the callee's
    default. *)
Variable from_pretrained : string -> result Tokenizer.
Variable create_input_embeddings_from_model_name :
  string -> option (list string) -> result Reach.

(** [StaticEmbedder.from_model] *)
Definition from_model (model_name : string) (module_path : option (list string))
    : result t :=
  tokenizer <- from_pretrained model_name ;;
  embeddings <- match module_path with
                | Some path => create_input_embeddings_from_model_name model_name (Some path)
                | None => create_input_embeddings_from_model_name model_name None
                end ;;
  __init__ embeddings tokenizer.

End FromModel.

End StaticEmbedder.

(** ** [TorchEncoder] *)

Module TorchEncoder.

(** The pooling model, as far as the encoder uses it: [model.tokenize(batch)]
    (its ["input_ids"] entry) and the forward pass [model(input_ids)]. *)
Record MeanModeler : Type := mk_MeanModeler {
  tokenize : list string -> list (list nat);
  forward : list (list nat) -> result ndarray2
}.

Record t : Type := mk {
  model : MeanModeler
}.

(** [TorchEncoder.__init__]: [model.eval()] returns the model itself. *)
Definition __init__ (model : MeanModeler) : t := {| model := model |}.

(** [TorchEncoder.encode] *)
Definition encode (self : t) (sentences : list string) (batch_size : Z)
    : result ndarray2 :=
  batch_indices <- Py.range 0 (Z.of_nat (length sentences)) batch_size ;;
  results <- Py.for_each batch_indices
               (fun results batch_index =>
                  let batch := Py.slice sentences batch_index (batch_index + batch_size) in
                  result <- forward (model self) (tokenize (model self) batch) ;;
                  Ok (results ++ [result]))
               [] ;;
  Np.cat results.

(** The [k]-th contiguous batch of [size] sentences. *)
Definition chunk (sentences : list string) (size k : nat) : list string :=
  firstn size (skipn (k * size) sentences).

(** A model is row-wise when the forward pass on a tokenized non-empty batch
    is the stack of one [d]-dimensional row per sentence, each computed from
    that sentence alone. *)
Definition row_wise (m : MeanModeler) (d : nat) (f : string -> vec) : Prop :=
  forall batch, batch <> [] ->
    forward m (tokenize m batch) = Ok {| ncols := d; rows := map f batch |}.

End TorchEncoder.

(** ** Concrete collaborators and inputs

    Instances of the outside collaborators, used to run the adapters on
    concrete inputs. *)

Module Fixtures.

Local Open Scope string_scope.
Local Open Scope list_scope.

(** A file system: the parsed lines (token, vector) of the vector file at
    each path that exists. *)
Definition filesystem : Type := list (string * list (string * vec)).

Fixpoint lookup (fs : filesystem) (path : string) : option (list (string * vec)) :=
  match fs with
  | [] => None
  | (p, lines) :: fs' => if String.eqb p path then Some lines else lookup fs' path
  end.

(** Modelled from the spec: [safe_load_reach] (tokenlearn.model.utilities is
    not part of the sources at hand).  The spec has it load a vector table
    from a file, and surface a missing file as a resource-not-found error and
    a malformed one as a format error.  A file is malformed here when its
    lines do not all carry vectors of one length. *)
Definition safe_load_reach (fs : filesystem) (path : string) : result Reach :=
  match lookup fs path with
  | None => Raise (FileNotFoundError path)
  | Some lines =>
      let d := match lines with [] => 0 | (_, v) :: _ => length v end in
      if forallb (fun line => (length (snd line) =? d)%nat) lines
      then Ok {| items := map fst lines;
                 _vectors := {| ncols := d; rows := map snd lines |};
                 unk_index := None;
                 name := path |}
      else Raise (ValueError "malformed vector file")
  end.

(** A stand-in for [PCA(n_components=k).fit_transform]: it keeps the first
    [k] coordinates of every row (a short row is filled with zeros).  It has
    scikit-learn's shape contract, an [(n, k)] result, and its precondition
    [k <= min(n_samples, n_features)]; the projection itself is not the
    principal one. *)
Definition leading_components (k : nat) (X : ndarray2) : result ndarray2 :=
  if (k <=? Nat.min (nrows X) (ncols X))%nat
  then Ok {| ncols := k; rows := map (fun row => firstn k (row ++ zeros k)) (rows X) |}
  else Raise (ValueError "n_components must be between 0 and min(n_samples, n_features)").

(** A stand-in for [wordfreq.word_frequency]. *)
Definition uniform_frequency (word lang : string) : R := 1%R.

Fixpoint split_words (current s : string) : list string :=
  match s with
  | EmptyString => if String.eqb current "" then [] else [current]
  | String c s' =>
      if Ascii.eqb c " "%char
      then (if String.eqb current "" then split_words "" s'
            else current :: split_words "" s')
      else split_words (String.append current (String c "")) s'
  end.

(** Modelled from the spec: [create_tokenizer_from_vocab]
    (tokenlearn.model.utilities is not part of the sources at hand).  The
    spec has it derive a word-level tokenizer whose vocabulary equals the
    table's tokens; a word outside the vocabulary becomes the unknown token. *)
Definition create_tokenizer_from_vocab (vocab : list string)
    (unk_token pad_token : string) : Tokenizer :=
  {| Utilities.tokenize := fun text =>
       map (fun w => if existsb (String.eqb w) vocab then w else unk_token)
           (split_words "" text) |}.

(** [from_vectors] over a given file system. *)
Definition from_vectors (fs : filesystem) :=
  StaticEmbedder.from_vectors (safe_load_reach fs) leading_components
    uniform_frequency create_tokenizer_from_vocab.

Definition loaded_table (fs : filesystem) :=
  StaticEmbedder.loaded_table (safe_load_reach fs) leading_components.

(** Two one-dimensional word vectors. *)
Definition ab_lines : list (string * vec) := [("a", [0%R]); ("b", [1%R])].

(** A file whose second line has a vector of another length. *)
Definition ragged_lines : list (string * vec) := [("a", [0%R]); ("b", [1%R; 2%R])].

(** Twelve words of dimension 400: more columns than rows. *)
Definition word_of (i : nat) : string :=
  String (ascii_of_nat (97 + i / 26)) (String (ascii_of_nat (97 + i mod 26)) "").

Definition flat_lines (n d : nat) : list (string * vec) :=
  map (fun i => (word_of i, zeros d)) (seq 0 n).

Definition disk : filesystem :=
  [ ("ab.vec", ab_lines);
    ("ragged.vec", ragged_lines);
    ("short_wide.vec", flat_lines 12 400);
    ("wide.vec", flat_lines 298 301) ].

(** The embedder built from ["ab.vec"] without PCA and without weighting. *)
Definition ab_table : Reach :=
  {| items := ["a"; "b"; "[PAD]"; "[UNK]"];
     _vectors := {| ncols := 1; rows := [[0%R]; [1%R]; [0%R]; [0%R]] |};
     unk_index := Some 3;
     name := "ab.vec" |}.

Definition ab_embedder : StaticEmbedder.t :=
  {| StaticEmbedder.vectors := ab_table;
     StaticEmbedder.tokenizer :=
       create_tokenizer_from_vocab ["a"; "b"; "[PAD]"; "[UNK]"] "[UNK]" "[PAD]";
     StaticEmbedder.unk_token := "[UNK]" |}.

(** [n] times the word [w], then the word ["b"]. *)
Definition words_then_b (w : string) (n : nat) : string :=
  String.append (String.concat "" (repeat (String.append w " ") n)) "b".

(** An unknown word, 512 times ["a"], then ["b"]: 513 known tokens. *)
Definition long_text : string := String.append "zz " (words_then_b "a" 512).

(** 512 unknown words, then ["b"]. *)
Definition unknowns_then_b : string := words_then_b "zz" 512.

(** One token id per character: 0 for ["a"], 1 for anything else. *)
Definition char_ids (s : string) : list nat :=
  map (fun c => if Ascii.eqb c "a"%char then 0 else 1) (list_ascii_of_string s).

(** An example model, to run the encoder on: it tokenizes every sentence on
    its own and averages, per sentence, the rows that the ids select in the
    table of ["ab.vec"] (an id outside the table selects a zero row).  It
    stands for no model of the repository. *)
Definition ab_model : TorchEncoder.MeanModeler :=
  {| TorchEncoder.tokenize := fun batch => map char_ids batch;
     TorchEncoder.forward := fun input_ids =>
       Ok {| ncols := 1;
             rows := map (fun ids =>
                            mean0 {| ncols := 1;
                                     rows := map (fun i => nth i [[0%R]; [1%R]] (zeros 1))
                                                 ids |})
                         input_ids |} |}.

(** A model whose tokenizer pads every sentence of a batch to the batch's
    longest sentence and whose forward pass averages over the padding too. *)
Definition padded_ids (batch : list string) : list (list nat) :=
  let width := fold_right Nat.max 0 (map String.length batch) in
  map (fun s => char_ids s ++ repeat 1 (width - String.length s)) batch.

Definition padding_model : TorchEncoder.MeanModeler :=
  {| TorchEncoder.tokenize := padded_ids;
     TorchEncoder.forward := TorchEncoder.forward ab_model |}.

(** A PCA that always fails. *)
Definition failing_PCA (k : nat) (X : ndarray2) : result ndarray2 :=
  Raise (ValueError "PCA failed").

(** A model that rejects a batch containing an empty sentence. *)
Definition fragile_model : TorchEncoder.MeanModeler :=
  {| TorchEncoder.tokenize := TorchEncoder.tokenize ab_model;
     TorchEncoder.forward := fun input_ids =>
       if existsb (fun ids => (length ids =? 0)%nat) input_ids
       then Raise (RuntimeError "empty sequence")
       else TorchEncoder.forward ab_model input_ids |}.

End Fixtures.

(** * Properties *)

(** ** Lists, slices and loops *)

Section ListFacts.

Context {A : Type}.

Lemma firstn_plus (l : list A) (a b : nat) :
  firstn (a + b) l = firstn a l ++ firstn b (skipn a l).
Proof.
  revert l; induction a as [|a IH]; intros l; simpl.
  - reflexivity.
  - destruct l as [|x l]; simpl.
    + now rewrite firstn_nil.
    + now rewrite IH.
Qed.

Lemma firstn_short (l : list A) (n m : nat) :
  length l <= n -> length l <= m -> firstn n l = firstn m l.
Proof.
  intros Hn Hm. now rewrite !firstn_all2.
Qed.

Lemma firstn_min_length (l : list A) (n : nat) :
  firstn (Nat.min n (length l)) l = firstn n l.
Proof.
  destruct (Nat.le_ge_cases n (length l)) as [H|H].
  - now rewrite Nat.min_l.
  - rewrite Nat.min_r by assumption. now rewrite !firstn_all2.
Qed.

(** A slice with non-negative bounds is a [firstn] of a [skipn]. *)
Lemma slice_nonneg (l : list A) (a n : Z) :
  (0 <= a)%Z -> (0 <= n)%Z ->
  Py.slice l a (a + n) = firstn (Z.to_nat n) (skipn (Z.to_nat a) l).
Proof.
  intros Ha Hn. unfold Py.slice, Py.adjust_index.
  destruct (Z.ltb_spec a 0) as [?|_]; [lia|].
  destruct (Z.ltb_spec (a + n) 0) as [?|_]; [lia|].
  destruct (Z.le_gt_cases a (Z.of_nat (length l))) as [Hle|Hgt].
  - rewrite (Z.min_l a) by assumption.
    rewrite <- (firstn_min_length (skipn (Z.to_nat a) l) (Z.to_nat n)).
    f_equal. rewrite length_skipn. lia.
  - rewrite (Z.min_r a) by lia. rewrite (Z.min_r (a + n)) by lia.
    rewrite !skipn_all2 by lia. now rewrite !firstn_nil.
Qed.

Lemma slice_prefix (l : list A) (n : Z) :
  (0 <= n)%Z -> Py.slice l 0 n = firstn (Z.to_nat n) l.
Proof.
  intros Hn. now rewrite <- (Z.add_0_l n) at 1; rewrite slice_nonneg by lia.
Qed.

End ListFacts.

Section LoopFacts.

Context {A B : Type}.

Lemma fold_raise {S : Type} (body : S -> A -> result S) (xs : list A) (e : exn) :
  fold_left (fun acc x => Py.bind acc (fun s => body s x)) xs (Raise e) = Raise e.
Proof.
  induction xs as [|x xs IH]; simpl; auto.
Qed.

(** A loop that appends one result per element computes [traverse]. *)
Lemma for_each_append (f : A -> result B) (xs : list A) (init : list B) :
  Py.for_each xs (fun out x => v <- f x ;; Ok (out ++ [v])) init
  = (vs <- Py.traverse f xs ;; Ok (init ++ vs)).
Proof.
  unfold Py.for_each. revert init.
  induction xs as [|x xs IH]; intros init; simpl.
  - now rewrite app_nil_r.
  - destruct (f x) as [y|e]; simpl.
    + rewrite IH. destruct (Py.traverse f xs) as [ys|e]; simpl; auto.
      now rewrite <- app_assoc.
    + apply fold_raise.
Qed.

Lemma traverse_length (f : A -> result B) (xs : list A) (ys : list B) :
  Py.traverse f xs = Ok ys -> length ys = length xs.
Proof.
  revert ys; induction xs as [|x xs IH]; intros ys H; simpl in H.
  - now inversion H.
  - destruct (f x) as [y|e]; [|discriminate].
    destruct (Py.traverse f xs) as [ys'|e]; [|discriminate].
    inversion H; subst; simpl. now rewrite (IH ys').
Qed.

Lemma traverse_nth (f : A -> result B) (xs : list A) (ys : list B) :
  Py.traverse f xs = Ok ys ->
  forall i x, nth_error xs i = Some x ->
              exists y, f x = Ok y /\ nth_error ys i = Some y.
Proof.
  revert ys; induction xs as [|x0 xs IH]; intros ys H i x Hi.
  - destruct i; discriminate.
  - simpl in H. destruct (f x0) as [y0|e] eqn:E0; [|discriminate].
    destruct (Py.traverse f xs) as [ys'|e]; [|discriminate].
    inversion H; subst; clear H.
    destruct i as [|i]; simpl in *.
    + inversion Hi; subst. eauto.
    + eapply IH; eauto.
Qed.

Lemma traverse_ok_map (f : A -> result B) (g : A -> B) (xs : list A) :
  (forall x, In x xs -> f x = Ok (g x)) -> Py.traverse f xs = Ok (map g xs).
Proof.
  induction xs as [|x xs IH]; intros H; simpl.
  - reflexivity.
  - rewrite (H x) by now left.
    rewrite IH; [reflexivity|]. intros y Hy. apply H. now right.
Qed.

Lemma traverse_ext (f g : A -> result B) (xs : list A) :
  (forall x, f x = g x) -> Py.traverse f xs = Py.traverse g xs.
Proof.
  intros H. induction xs as [|x xs IH]; simpl.
  - reflexivity.
  - now rewrite H, IH.
Qed.

End LoopFacts.

(** ** [StaticEmbedder]: the single-text path and [encode] *)

Section StaticEmbedderFacts.

Import StaticEmbedder.

Variable self : StaticEmbedder.t.

Lemma stack_rows (arrays : list vec) (out : ndarray2) :
  Np.stack arrays = Ok out -> rows out = arrays.
Proof.
  unfold Np.stack. destruct arrays as [|a rest]; [discriminate|].
  destruct forallb; [|discriminate].
  intros H; inversion H; reflexivity.
Qed.

Lemma stack_singleton (v : vec) :
  Np.stack [v] = Ok {| ncols := length v; rows := [v] |}.
Proof. reflexivity. Qed.

Lemma known_tokens_not_unknown (text : string) :
  Forall (fun token => token <> unk_token self) (known_tokens self text).
Proof.
  unfold known_tokens. apply Forall_forall. intros token Hin.
  apply filter_In in Hin. destruct Hin as [_ Hneq].
  apply negb_true_iff in Hneq. now apply String.eqb_neq.
Qed.

(** The tokens pooled by the loop body of [encode]: the slice [[:512]] is a
    [firstn]. *)
Lemma encode_sentence_tokens (sentence : string) :
  encode_sentence self sentence
  = mean_pool (vectors self) (drop_then_truncate self sentence) false.
Proof.
  unfold encode_sentence, drop_then_truncate, known_tokens.
  now rewrite slice_prefix by lia.
Qed.

(** The loop of [encode] collects one vector per sentence, in order, and
    stops at the first exception. *)
Lemma encode_traverse (sentences : list string) :
  encode self sentences
  = (output <- Py.traverse (encode_sentence self) sentences ;; Np.stack output).
Proof.
  unfold encode. rewrite for_each_append.
  destruct (Py.traverse (encode_sentence self) sentences); reflexivity.
Qed.

(** C2: when at most 512 tokens remain after dropping the unknown token,
    [encode] on the one-element list [[text]] returns the one-row array whose
    row is the vector of [__call__] on [text] (and raises what [__call__]
    raises, if it raises). *)
Theorem encode_singleton_agrees_with_call (text : string) :
  length (known_tokens self text) <= 512 ->
  encode self [text]
  = (v <- __call__ self text ;; Ok {| ncols := length v; rows := [v] |}).
Proof.
  intros Hlen. rewrite encode_traverse. simpl.
  assert (Hsame : encode_sentence self text = __call__ self text).
  { unfold encode_sentence, __call__.
    rewrite slice_prefix by lia. now rewrite firstn_all2. }
  rewrite Hsame. destruct (__call__ self text) as [v|e]; reflexivity.
Qed.

(** C4 (amended): [__call__] pools exactly the tokens of the text that differ
    from the unknown token; [encode] pools the first 512 of them; in neither
    path does a token equal to the unknown token reach the pooling. *)
Theorem unknown_tokens_never_pooled (text : string) :
  let known :=
    filter (fun token => negb (String.eqb token (unk_token self)))
           (tokenize (tokenizer self) text) in
  __call__ self text = mean_pool (vectors self) known false
  /\ encode self [text]
     = (v <- mean_pool (vectors self) (firstn 512 known) false ;; Np.stack [v])
  /\ Forall (fun token => token <> unk_token self) known
  /\ Forall (fun token => token <> unk_token self) (firstn 512 known).
Proof.
  intros known.
  assert (Hknown : Forall (fun token => token <> unk_token self) known)
    by apply known_tokens_not_unknown.
  split; [|split; [|split]].
  - reflexivity.
  - rewrite encode_traverse. cbn [Py.traverse].
    rewrite encode_sentence_tokens.
    unfold drop_then_truncate. fold known.
    destruct (mean_pool (vectors self) (firstn 512 known) false); reflexivity.
  - exact Hknown.
  - apply Forall_forall. intros token Hin.
    rewrite Forall_forall in Hknown. apply Hknown.
    rewrite <- (firstn_skipn 512 known). apply in_or_app. now left.
Qed.

(** C5: the rows of the array returned by [encode] are, in input order, the
    pooled vectors of the sentences: row [i] is the vector of sentence [i],
    and there are as many rows as sentences. *)
Theorem encode_preserves_order (sentences : list string) (out : ndarray2) :
  encode self sentences = Ok out ->
  nrows out = length sentences
  /\ forall i sentence,
       nth_error sentences i = Some sentence ->
       exists v, encode_sentence self sentence = Ok v
                 /\ nth_error (rows out) i = Some v.
Proof.
  rewrite encode_traverse.
  destruct (Py.traverse (encode_sentence self) sentences) as [output|e] eqn:E;
    [|discriminate].
  simpl. intros Hstack. apply stack_rows in Hstack.
  unfold nrows. rewrite Hstack. split.
  - eapply traverse_length; eauto.
  - intros i sentence Hi. eapply traverse_nth; eauto.
Qed.

(** C8: every vector stacked by [encode] is the mean-pool of the first 512
    tokens that remain after the unknown tokens are dropped: the filter runs
    on the whole tokenization and the truncation on its result. *)
Theorem encode_drops_then_truncates (sentences : list string) :
  encode self sentences
  = (output <- Py.traverse
                 (fun sentence =>
                    mean_pool (vectors self) (drop_then_truncate self sentence) false)
                 sentences ;;
     Np.stack output).
Proof.
  rewrite encode_traverse.
  now rewrite (traverse_ext (encode_sentence self) _ sentences encode_sentence_tokens).
Qed.

End StaticEmbedderFacts.

(** ** The vector table: pooling tokens of the vocabulary *)

Section ReachFacts.

Variable r : Reach.

Lemma bow_known (tokens : list string) (index : list nat) :
  Forall2 (fun token i => item_index r token = Some i) tokens index ->
  bow r tokens = Ok index.
Proof.
  induction 1 as [|token i tokens index Hi _ IH]; simpl.
  - reflexivity.
  - now rewrite Hi, IH.
Qed.

Lemma take_rows_known (xs selected : list vec) (index : list nat) :
  Forall2 (fun i row => nth_error xs i = Some row) index selected ->
  take_rows xs index = Ok selected.
Proof.
  induction 1 as [|i row index selected Hi _ IH]; simpl.
  - reflexivity.
  - now rewrite Hi, IH.
Qed.

(** Pooling tokens that are all in the vocabulary averages their rows. *)
Lemma mean_pool_known (tokens : list string) (index : list nat)
    (selected : list vec) (safeguard : bool) :
  tokens <> [] ->
  Forall2 (fun token i => item_index r token = Some i) tokens index ->
  Forall2 (fun i row => nth_error (rows (_vectors r)) i = Some row) index selected ->
  mean_pool r tokens safeguard = Ok (mean0 {| ncols := size r; rows := selected |}).
Proof.
  intros Hne Hbow Hrows. unfold mean_pool, vectorize.
  destruct tokens as [|token tokens]; [contradiction|].
  rewrite (@bow_known _ _ Hbow). simpl.
  destruct index as [|i index]; [inversion Hbow|].
  now rewrite (@take_rows_known _ _ _ Hrows).
Qed.

End ReachFacts.

Lemma Forall2_repeat {A B : Type} (P : A -> B -> Prop) (a : A) (b : B) (n : nat) :
  P a b -> Forall2 P (repeat a n) (repeat b n).
Proof.
  intros H. induction n; simpl; constructor; auto.
Qed.

Lemma repeat_nonempty {A : Type} (a : A) (n : nat) : 0 < n -> repeat a n <> [].
Proof.
  destruct n; [lia|discriminate].
Qed.

Lemma vsum_zero_rows (x : R) (n : nat) :
  fold_left vadd (repeat [0%R] n) [x] = [x].
Proof.
  induction n as [|n IH]; simpl.
  - reflexivity.
  - now rewrite Rplus_0_r.
Qed.

(** ** The table of ["ab.vec"] *)

Section AbTable.

Import Fixtures.
Local Open Scope string_scope.
Local Open Scope list_scope.

Lemma ab_from_vectors :
  (v <- Fixtures.from_vectors disk "ab.vec" false false false ;;
   Ok (StaticEmbedder.vectors v, StaticEmbedder.unk_token v))
  = Ok (ab_table, "[UNK]").
Proof. vm_compute. reflexivity. Qed.

Lemma ab_pool_as (n : nat) :
  0 < n -> mean_pool ab_table (repeat "a" n) false = Ok [(0 / INR n)%R].
Proof.
  intros Hn.
  rewrite (@mean_pool_known ab_table (repeat "a" n) (repeat 0 n) (repeat [0%R] n)).
  - unfold mean0, vsum, nrows. cbn [rows ncols size ab_table _vectors zeros repeat].
    now rewrite vsum_zero_rows, repeat_length.
  - now apply repeat_nonempty.
  - now apply Forall2_repeat.
  - now apply Forall2_repeat.
Qed.

Lemma ab_pool_as_then_b (n : nat) :
  mean_pool ab_table (repeat "a" n ++ ["b"]) false = Ok [((0 + 1) / INR (n + 1))%R].
Proof.
  rewrite (@mean_pool_known ab_table (repeat "a" n ++ ["b"])
             (repeat 0 n ++ [1]) (repeat [0%R] n ++ [[1%R]])).
  - unfold mean0, vsum, nrows. cbn [rows ncols size ab_table _vectors zeros repeat].
    rewrite fold_left_app, vsum_zero_rows, length_app, repeat_length.
    reflexivity.
  - intros H. apply app_eq_nil in H. destruct H; discriminate.
  - apply Forall2_app; [now apply Forall2_repeat|]. now repeat constructor.
  - apply Forall2_app; [now apply Forall2_repeat|]. now repeat constructor.
Qed.

Lemma long_text_known_tokens :
  StaticEmbedder.known_tokens ab_embedder long_text = repeat "a" 512 ++ ["b"].
Proof. vm_compute. reflexivity. Qed.

Lemma long_text_pooled_tokens :
  StaticEmbedder.drop_then_truncate ab_embedder long_text = repeat "a" 512.
Proof. vm_compute. reflexivity. Qed.

(** C4 (counterexample): on a text with one unknown word followed by 513
    known ones, the row returned by [encode] is the mean over the first 512
    known tokens, which differs from the mean over all the tokens that are
    not the unknown token (the vector [__call__] returns). *)
Lemma encode_pools_only_512_known_tokens :
  exists v_all v_row,
    mean_pool (StaticEmbedder.vectors ab_embedder)
      (filter (fun token => negb (String.eqb token (StaticEmbedder.unk_token ab_embedder)))
              (tokenize (StaticEmbedder.tokenizer ab_embedder) long_text))
      false = Ok v_all
    /\ StaticEmbedder.__call__ ab_embedder long_text = Ok v_all
    /\ StaticEmbedder.encode ab_embedder [long_text] = Ok {| ncols := 1; rows := [v_row] |}
    /\ v_all <> v_row.
Proof.
  exists [((0 + 1) / INR (512 + 1))%R], [(0 / INR 512)%R].
  assert (Hall : StaticEmbedder.__call__ ab_embedder long_text
                 = Ok [((0 + 1) / INR (512 + 1))%R]).
  { unfold StaticEmbedder.__call__. rewrite long_text_known_tokens.
    apply ab_pool_as_then_b. }
  split; [exact Hall|]. split; [exact Hall|]. split.
  - rewrite encode_traverse. cbn [Py.traverse].
    rewrite encode_sentence_tokens, long_text_pooled_tokens.
    change (StaticEmbedder.vectors ab_embedder) with ab_table.
    rewrite ab_pool_as by lia. reflexivity.
  - intros Heq. injection Heq as Heq.
    assert (Hpos : (0 < INR (512 + 1))%R) by (apply lt_0_INR; lia).
    apply Rinv_0_lt_compat in Hpos.
    unfold Rdiv in Heq. lra.
Qed.

End AbTable.

(** ** [TorchEncoder]: batching *)

Section Batching.

Import TorchEncoder.

Lemma chunks_concat (sentences : list string) (size count : nat) :
  concat (map (chunk sentences size) (seq 0 count)) = firstn (count * size) sentences.
Proof.
  induction count as [|count IH].
  - reflexivity.
  - rewrite seq_S, map_app, concat_app, IH. cbn [map concat Nat.add].
    rewrite app_nil_r. unfold chunk.
    now rewrite Nat.mul_succ_l, firstn_plus.
Qed.

(** The number of batches covers the list, and every batch starts inside it. *)
Lemma range_length_covers (n : nat) (step : Z) :
  (0 < step)%Z ->
  n <= Py.range_length 0 (Z.of_nat n) step * Z.to_nat step.
Proof.
  intros Hstep. unfold Py.range_length.
  destruct (Z.ltb_spec 0 step) as [_|?]; [|lia].
  destruct (Z.ltb_spec 0 (Z.of_nat n)) as [Hn|Hn]; [|lia].
  rewrite Z.sub_0_r.
  pose proof (Z.mod_pos_bound (Z.of_nat n - 1) step Hstep) as Hmod.
  pose proof (Z.div_mod (Z.of_nat n - 1) step ltac:(lia)) as Hdiv.
  assert (Hq : (0 <= (Z.of_nat n - 1) / step)%Z) by (apply Z.div_pos; lia).
  nia.
Qed.

Lemma range_length_inside (n k : nat) (step : Z) :
  (0 < step)%Z ->
  k < Py.range_length 0 (Z.of_nat n) step ->
  k * Z.to_nat step < n.
Proof.
  intros Hstep. unfold Py.range_length.
  destruct (Z.ltb_spec 0 step) as [_|?]; [|lia].
  destruct (Z.ltb_spec 0 (Z.of_nat n)) as [Hn|Hn]; [|simpl; lia].
  rewrite Z.sub_0_r. intros Hk.
  pose proof (Z.mod_pos_bound (Z.of_nat n - 1) step Hstep) as Hmod.
  pose proof (Z.div_mod (Z.of_nat n - 1) step ltac:(lia)) as Hdiv.
  assert (Hq : (0 <= (Z.of_nat n - 1) / step)%Z) by (apply Z.div_pos; lia).
  nia.
Qed.

Lemma range_length_positive (n : nat) (step : Z) :
  (0 < step)%Z -> 0 < n -> 0 < Py.range_length 0 (Z.of_nat n) step.
Proof.
  intros Hstep Hn. unfold Py.range_length.
  destruct (Z.ltb_spec 0 step) as [_|?]; [|lia].
  destruct (Z.ltb_spec 0 (Z.of_nat n)) as [_|?]; [|lia].
  assert (Hq : (0 <= (Z.of_nat n - 0 - 1) / step)%Z) by (apply Z.div_pos; lia).
  lia.
Qed.

(** The slice taken for the [k]-th batch index is the [k]-th chunk. *)
Lemma batch_slice (sentences : list string) (batch_size : Z) (k : nat) :
  (0 < batch_size)%Z ->
  Py.slice sentences (0 + Z.of_nat k * batch_size)
                     (0 + Z.of_nat k * batch_size + batch_size)
  = chunk sentences (Z.to_nat batch_size) k.
Proof.
  intros Hb. rewrite slice_nonneg by lia. unfold chunk.
  do 2 f_equal. lia.
Qed.

(** Batches are contiguous and in input order: concatenated, they give the
    sentence list back. *)
Lemma batches_partition (sentences : list string) (batch_size : Z) :
  (0 < batch_size)%Z ->
  exists batch_indices,
    Py.range 0 (Z.of_nat (length sentences)) batch_size = Ok batch_indices
    /\ concat (map (fun i => Py.slice sentences i (i + batch_size)) batch_indices)
       = sentences.
Proof.
  intros Hb. unfold Py.range.
  destruct (Z.eqb_spec batch_size 0) as [?|_]; [lia|].
  eexists; split; [reflexivity|].
  rewrite map_map.
  rewrite (map_ext _ (chunk sentences (Z.to_nat batch_size)))
    by (intros k; now apply batch_slice).
  rewrite chunks_concat. apply firstn_all2.
  now apply range_length_covers.
Qed.

Lemma cat_uniform (d : nat) (tensors : list ndarray2) :
  tensors <> [] ->
  Forall (fun u => ncols u = d) tensors ->
  Np.cat tensors = Ok {| ncols := d; rows := concat (map rows tensors) |}.
Proof.
  intros Hne Hall. unfold Np.cat.
  destruct tensors as [|u rest]; [contradiction|].
  inversion Hall as [|? ? Hu Hrest]; subst.
  replace (forallb (fun v => ncols v =? ncols u) rest) with true; [reflexivity|].
  symmetry. apply forallb_forall. intros v Hv.
  rewrite Forall_forall in Hrest. apply Nat.eqb_eq. now apply Hrest.
Qed.

Lemma encode_traverse_batches (self : TorchEncoder.t) (sentences : list string)
    (batch_size : Z) :
  encode self sentences batch_size
  = (batch_indices <- Py.range 0 (Z.of_nat (length sentences)) batch_size ;;
     results <- Py.traverse
                  (fun i => forward (model self)
                              (tokenize (model self)
                                 (Py.slice sentences i (i + batch_size))))
                  batch_indices ;;
     Np.cat results).
Proof.
  unfold encode.
  destruct (Py.range 0 (Z.of_nat (length sentences)) batch_size) as [idx|e];
    [|reflexivity].
  cbn [Py.bind].
  rewrite (for_each_append
             (fun i => forward (model self)
                         (tokenize (model self) (Py.slice sentences i (i + batch_size))))).
  destruct (Py.traverse _ idx); reflexivity.
Qed.

(** With a row-wise model, [encode] returns one row per sentence, in input
    order, whatever the positive batch size. *)
Lemma encode_row_wise (m : MeanModeler) (d : nat) (f : string -> vec)
    (sentences : list string) (batch_size : Z) :
  row_wise m d f ->
  sentences <> [] ->
  (0 < batch_size)%Z ->
  encode (__init__ m) sentences batch_size
  = Ok {| ncols := d; rows := map f sentences |}.
Proof.
  intros Hrow Hne Hb. rewrite encode_traverse_batches.
  unfold Py.range. destruct (Z.eqb_spec batch_size 0) as [?|_]; [lia|].
  cbn [Py.bind __init__ model].
  set (count := Py.range_length 0 (Z.of_nat (length sentences)) batch_size).
  set (b := Z.to_nat batch_size).
  assert (Hlen : 0 < length sentences)
    by (destruct sentences; [contradiction|simpl; lia]).
  rewrite (@traverse_ok_map _ _ _
             (fun i => {| ncols := d;
                          rows := map f (Py.slice sentences i (i + batch_size)) |})).
  - cbn [Py.bind]. rewrite (@cat_uniform d).
    + f_equal. f_equal. rewrite !map_map. cbn [rows].
      rewrite (map_ext _ (fun k => map f (chunk sentences b k)))
        by (intros k; now rewrite batch_slice).
      rewrite <- (map_map (chunk sentences b) (map f)), <- concat_map.
      rewrite chunks_concat. f_equal. apply firstn_all2.
      now apply range_length_covers.
    + pose proof (@range_length_positive (length sentences) batch_size Hb Hlen) as Hc.
      fold count in Hc. destruct count; [lia|discriminate].
    + apply Forall_forall. intros u Hu.
      apply in_map_iff in Hu. destruct Hu as [i [<- _]]. reflexivity.
  - intros i Hi. apply in_map_iff in Hi. destruct Hi as [k [<- Hk]].
    apply in_seq in Hk. apply Hrow.
    rewrite batch_slice by assumption. unfold chunk.
    assert (Hin : k * b < length sentences)
      by (apply range_length_inside; [assumption|fold count; lia]).
    assert (Hpos : 0 < b) by (unfold b; lia).
    intros Hnil. apply (f_equal (@length string)) in Hnil.
    rewrite length_firstn, length_skipn in Hnil. simpl in Hnil. lia.
Qed.

Lemma traverse_map {A B C : Type} (h : A -> B) (g : B -> result C) (xs : list A) :
  Py.traverse g (map h xs) = Py.traverse (fun x => g (h x)) xs.
Proof.
  induction xs as [|x xs IH]; simpl.
  - reflexivity.
  - now rewrite IH.
Qed.

(** What [encode] does with a positive batch size, for any model: it calls
    the model on the chunks number 0, 1, ... of the sentence list, in that
    order, and concatenates what the calls return. *)
Lemma encode_as_chunks (self : TorchEncoder.t) (sentences : list string)
    (batch_size : Z) :
  (0 < batch_size)%Z ->
  encode self sentences batch_size
  = (results <- Py.traverse
                  (fun k => forward (model self)
                              (tokenize (model self)
                                 (chunk sentences (Z.to_nat batch_size) k)))
                  (seq 0 (Py.range_length 0 (Z.of_nat (length sentences)) batch_size)) ;;
     Np.cat results).
Proof.
  intros Hb. rewrite encode_traverse_batches. unfold Py.range.
  destruct (Z.eqb_spec batch_size 0) as [?|_]; [lia|].
  cbn [Py.bind]. rewrite traverse_map.
  now rewrite (traverse_ext _
                 (fun k => forward (model self)
                             (tokenize (model self)
                                (chunk sentences (Z.to_nat batch_size) k))))
    by (intros k; now rewrite batch_slice).
Qed.


(** C9: on an empty sentence list both adapters raise.  [StaticEmbedder.encode]
    stacks an empty list; [TorchEncoder.encode] concatenates an empty list of
    tensors, unless the batch size is zero, in which case [range] has already
    raised. *)
Theorem encode_of_no_sentences_raises (static : StaticEmbedder.t)
    (torch : TorchEncoder.t) (batch_size : Z) :
  StaticEmbedder.encode static [] = Raise (ValueError "need at least one array to stack")
  /\ encode torch [] batch_size
     = Raise (if (batch_size =? 0)%Z
              then ValueError "range() arg 3 must not be zero"
              else RuntimeError "torch.cat(): expected a non-empty list of Tensors").
Proof.
  split; [reflexivity|].
  unfold encode, Py.range, Py.range_length.
  destruct (Z.eqb_spec batch_size 0) as [->|Hnz]; [reflexivity|].
  cbn [length Z.of_nat]. rewrite Z.ltb_irrefl.
  destruct (0 <? batch_size)%Z; reflexivity.
Qed.

End Batching.

(** ** Inserting the special tokens *)

Section TokenInsertion.

Lemma index_of_nth (token : string) (l : list string) (i : nat) :
  index_of token l = Some i -> nth_error l i = Some token.
Proof.
  revert i; induction l as [|t l IH]; intros i H; simpl in H.
  - discriminate.
  - destruct (String.eqb_spec t token) as [->|_].
    + now inversion H.
    + destruct (index_of token l) as [j|]; [|discriminate].
      inversion H; subst. simpl. now apply IH.
Qed.

Lemma index_of_In (token : string) (l : list string) :
  In token l -> exists i, index_of token l = Some i.
Proof.
  induction l as [|t l IH]; intros H; simpl.
  - contradiction.
  - destruct (String.eqb_spec t token) as [_|Hne]; [eauto|].
    destruct H as [H|H]; [contradiction|].
    destruct (IH H) as [i ->]. simpl. eauto.
Qed.

Lemma contains_In (r : Reach) (token : string) :
  contains r token = true -> In token (items r).
Proof.
  unfold contains, item_index.
  destruct (index_of token (items r)) as [i|] eqn:E; [|discriminate].
  intros _. eapply nth_error_In, index_of_nth; eauto.
Qed.

Lemma add_token_has (r : Reach) (token : string) (set_as_unk : bool) :
  In token (items (add_token_to_reach r token set_as_unk)).
Proof.
  unfold add_token_to_reach.
  destruct (contains r token) eqn:E; destruct set_as_unk; cbn [items];
    solve [ now apply contains_In | apply in_or_app; right; now left ].
Qed.

Lemma add_token_keeps (r : Reach) (token other : string) (set_as_unk : bool) :
  In other (items r) -> In other (items (add_token_to_reach r token set_as_unk)).
Proof.
  intros H. unfold add_token_to_reach.
  destruct (contains r token); destruct set_as_unk; cbn [items];
    solve [ assumption | apply in_or_app; now left ].
Qed.

Lemma add_token_sets_unk (r : Reach) (token : string) :
  exists u, unk_index (add_token_to_reach r token true) = Some u
            /\ index_item (add_token_to_reach r token true) u = Some token.
Proof.
  destruct (index_of_In token (items (add_token_to_reach r token true)))
    as [u Hu]; [apply add_token_has|].
  exists u. split.
  - unfold add_token_to_reach in *. cbn [unk_index items] in *.
    unfold item_index. exact Hu.
  - now apply index_of_nth.
Qed.

Lemma add_token_size (r : Reach) (token : string) (set_as_unk : bool) :
  size (add_token_to_reach r token set_as_unk) = size r.
Proof.
  unfold add_token_to_reach, size.
  destruct (contains r token); destruct set_as_unk; reflexivity.
Qed.

Lemma zeros_length (n : nat) : length (zeros n) = n.
Proof. apply repeat_length. Qed.

Lemma add_token_rectangular (r : Reach) (token : string) (set_as_unk : bool) :
  rectangular (_vectors r) ->
  rectangular (_vectors (add_token_to_reach r token set_as_unk)).
Proof.
  intros H. unfold add_token_to_reach, rectangular in *.
  destruct (contains r token); destruct set_as_unk; cbn [_vectors rows ncols];
    try assumption;
    (apply Forall_app; split; [assumption|]; constructor;
     [apply zeros_length|constructor]).
Qed.

Lemma two_distinct_members (a b : string) (l : list string) :
  a <> b -> In a l -> In b l -> 2 <= length l.
Proof.
  intros Hne Ha Hb.
  destruct l as [|x [|y l]].
  - contradiction.
  - destruct Ha as [Ha|[]]; destruct Hb as [Hb|[]]. congruence.
  - simpl; lia.
Qed.

End TokenInsertion.

(** ** Row scaling *)

Section Scaling.

Lemma scale_length (w : R) (row : vec) : length (scale w row) = length row.
Proof. apply length_map. Qed.

Lemma scale_rows_rectangular (d : nat) (xs : list vec) (ws : vec) :
  Forall (fun row => length row = d) xs ->
  Forall (fun row => length row = d) (scale_rows xs ws).
Proof.
  intros H; revert ws; induction H as [|row xs Hrow _ IH]; intros ws; simpl.
  - constructor.
  - destruct ws as [|w ws]; constructor.
    + now rewrite scale_length.
    + apply IH.
Qed.

(** A successful broadcast keeps the column count and the row lengths. *)
Lemma imul_column_shape (X Y : ndarray2) (w : vec) :
  imul_column X w = Ok Y ->
  ncols Y = ncols X /\ (rectangular X -> rectangular Y).
Proof.
  unfold imul_column, rectangular.
  destruct (length w =? nrows X).
  - intros H; inversion H; subst; cbn [ncols rows]. split; [reflexivity|].
    apply scale_rows_rectangular.
  - destruct w as [|w0 [|]]; try discriminate.
    intros H; inversion H; subst; cbn [ncols rows]. split; [reflexivity|].
    intros Hrect. apply Forall_forall. intros row Hin.
    apply in_map_iff in Hin. destruct Hin as [row0 [<- Hin0]].
    rewrite scale_length. rewrite Forall_forall in Hrect. now apply Hrect.
Qed.

(** Row [i] is scaled by entry [i] of the logarithms of [lo, lo + 1, ...]. *)
Lemma scale_rows_log_arange (xs : list vec) (lo i : nat) (row : vec) :
  nth_error xs i = Some row ->
  nth_error (scale_rows xs (log_arange lo (length xs))) i
  = Some (scale (ln (INR (lo + i))) row).
Proof.
  revert lo i; induction xs as [|x xs IH]; intros lo i H.
  - destruct i; discriminate.
  - cbn [length]. unfold log_arange. cbn [seq map scale_rows].
    destruct i as [|i]; simpl in H.
    + inversion H; subst. simpl. now rewrite Nat.add_0_r.
    + simpl. fold (log_arange (S lo) (length xs)).
      rewrite (IH (S lo) i H). now replace (S lo + i) with (lo + S i) by lia.
Qed.

Lemma scale_by_log_one (row : vec) :
  scale (ln (INR 1)) row = zeros (length row).
Proof.
  unfold scale, zeros. simpl INR. rewrite ln_1.
  induction row as [|x row IH]; simpl.
  - reflexivity.
  - now rewrite IH, Rmult_0_r.
Qed.

Lemma add_token_rows (r : Reach) (token : string) (set_as_unk : bool) :
  nrows (_vectors r) = len r ->
  nrows (_vectors (add_token_to_reach r token set_as_unk))
  = len (add_token_to_reach r token set_as_unk).
Proof.
  intros H. unfold add_token_to_reach, nrows, len in *.
  destruct (contains r token); destruct set_as_unk; cbn [_vectors rows items];
    try assumption; rewrite !length_app; simpl; lia.
Qed.

Lemma scale_rows_length (xs : list vec) (ws : vec) :
  length ws = length xs -> length (scale_rows xs ws) = length xs.
Proof.
  revert ws; induction xs as [|row xs IH]; intros [|w ws] H; simpl in *;
    try reflexivity; try discriminate.
  now rewrite IH by lia.
Qed.

(** With one weight per row, the broadcast succeeds and keeps the row count. *)
Lemma imul_column_rows (X : ndarray2) (w : vec) :
  length w = nrows X ->
  exists Y, imul_column X w = Ok Y /\ nrows Y = nrows X.
Proof.
  intros H. unfold imul_column. rewrite H, Nat.eqb_refl.
  eexists. split; [reflexivity|]. unfold nrows in *. cbn [rows].
  now apply scale_rows_length.
Qed.

End Scaling.

(** ** [StaticEmbedder.encode] returns an array *)

Section EncodeTotal.

Import StaticEmbedder.

Lemma index_of_lt (token : string) (l : list string) (i : nat) :
  index_of token l = Some i -> i < length l.
Proof.
  intros H. apply nth_error_Some. now rewrite (index_of_nth _ _ H).
Qed.

(** [bow] either returns one index per token, each inside the table, or
    raises a [ValueError]. *)
Lemma bow_result (r : Reach) (tokens : list string) :
  (forall u, unk_index r = Some u -> u < len r) ->
  (exists index, bow r tokens = Ok index
                 /\ length index = length tokens
                 /\ Forall (fun i => i < len r) index)
  \/ (exists msg, bow r tokens = Raise (ValueError msg)).
Proof.
  intros Hunk. induction tokens as [|token tokens IH]; simpl.
  - left. exists []. auto.
  - destruct (item_index r token) as [i|] eqn:Hi.
    + destruct IH as [(index & -> & Hlen & Hall)|(msg & ->)];
        [left|right; cbn [Py.bind]; eauto].
      exists (i :: index). simpl. split; [reflexivity|]. split; [lia|].
      constructor; [|assumption]. now apply (index_of_lt token).
    + destruct (unk_index r) as [u|] eqn:Hu; [|right; eauto].
      destruct IH as [(index & -> & Hlen & Hall)|(msg & ->)];
        [left|right; cbn [Py.bind]; eauto].
      exists (u :: index). simpl. split; [reflexivity|]. split; [lia|].
      constructor; auto.
Qed.

Lemma take_rows_total (xs : list vec) (index : list nat) :
  Forall (fun i => i < length xs) index ->
  exists selected, take_rows xs index = Ok selected
                   /\ length selected = length index
                   /\ Forall (fun row => In row xs) selected.
Proof.
  induction 1 as [|i index Hi _ (selected & IH & Hlen & Hin)]; simpl.
  - exists []. auto.
  - destruct (nth_error xs i) as [row|] eqn:Hrow.
    + rewrite IH. exists (row :: selected). simpl.
      split; [reflexivity|]. split; [lia|].
      constructor; [|assumption]. eapply nth_error_In; eauto.
    + apply nth_error_None in Hrow. lia.
Qed.

Lemma vadd_length (u v : vec) : length u = length v -> length (vadd u v) = length u.
Proof.
  revert v; induction u as [|x u IH]; intros [|y v] H; simpl in *;
    try reflexivity; try discriminate.
  now rewrite IH by lia.
Qed.

Lemma vsum_length (d : nat) (xs : list vec) :
  Forall (fun row => length row = d) xs -> length (vsum d xs) = d.
Proof.
  unfold vsum. generalize (zeros_length d). generalize (zeros d).
  intros acc Hacc H. revert acc Hacc.
  induction H as [|row xs Hrow _ IH]; intros acc Hacc; simpl.
  - exact Hacc.
  - apply IH. rewrite vadd_length; congruence.
Qed.

Lemma mean0_length (X : ndarray2) : rectangular X -> length (mean0 X) = ncols X.
Proof.
  intros H. unfold mean0. rewrite length_map. now apply vsum_length.
Qed.

(** Without the safeguard, pooling over a well-formed table always returns a
    vector of the table's size. *)
Lemma mean_pool_total (r : Reach) (tokens : list string) :
  well_formed r ->
  (forall u, unk_index r = Some u -> u < len r) ->
  exists v, mean_pool r tokens false = Ok v /\ length v = size r.
Proof.
  intros [Hrows Hrect] Hunk. unfold mean_pool, vectorize.
  destruct tokens as [|token tokens].
  - exists (zeros (size r)). split; [reflexivity|apply zeros_length].
  - destruct (bow_result r (token :: tokens) Hunk)
      as [(index & -> & Hlen & Hall)|(msg & ->)].
    + cbn [Py.bind]. destruct index as [|i index]; [discriminate|].
      assert (Hin : Forall (fun j => j < length (rows (_vectors r))) (i :: index))
        by (unfold nrows in Hrows; now rewrite Hrows).
      destruct (@take_rows_total _ _ Hin) as (selected & -> & _ & Hsel).
      cbn [Py.bind]. eexists. split; [reflexivity|].
      rewrite mean0_length; [reflexivity|].
      unfold rectangular in *. cbn [rows ncols].
      apply Forall_forall. intros row Hrow.
      rewrite Forall_forall in Hsel, Hrect. apply Hrect. now apply Hsel.
    + cbn [Py.bind]. exists (zeros (size r)).
      split; [reflexivity|apply zeros_length].
Qed.

Lemma traverse_total {A B : Type} (f : A -> result B) (P : B -> Prop) (xs : list A) :
  (forall x, exists y, f x = Ok y /\ P y) ->
  exists ys, Py.traverse f xs = Ok ys /\ Forall P ys /\ length ys = length xs.
Proof.
  intros H. induction xs as [|x xs (ys & IH & Hall & Hlen)]; simpl.
  - exists []. auto.
  - destruct (H x) as (y & -> & Hy). rewrite IH.
    exists (y :: ys). simpl. split; [reflexivity|]. split; [|lia].
    now constructor.
Qed.

Lemma stack_uniform (d : nat) (arrays : list vec) :
  arrays <> [] ->
  Forall (fun v => length v = d) arrays ->
  Np.stack arrays = Ok {| ncols := d; rows := arrays |}.
Proof.
  intros Hne Hall. unfold Np.stack.
  destruct arrays as [|a rest]; [contradiction|].
  inversion Hall as [|? ? Ha Hrest]; subst.
  replace (forallb (fun b => length b =? length a) rest) with true; [reflexivity|].
  symmetry. apply forallb_forall. intros b Hb.
  rewrite Forall_forall in Hrest. apply Nat.eqb_eq. now apply Hrest.
Qed.

(** X1: on a non-empty sentence list, [encode] over a well-formed table
    raises nothing: it returns an array with one row per sentence, each row
    of the table's size. *)
Theorem encode_returns_an_array (self : StaticEmbedder.t) (sentences : list string) :
  well_formed (vectors self) ->
  (forall u, unk_index (vectors self) = Some u -> u < len (vectors self)) ->
  sentences <> [] ->
  exists out, encode self sentences = Ok out
              /\ ncols out = size (vectors self)
              /\ nrows out = length sentences
              /\ rectangular out.
Proof.
  intros Hwf Hunk Hne. rewrite encode_traverse.
  assert (Hpool : forall sentence,
             exists v, encode_sentence self sentence = Ok v
                       /\ length v = size (vectors self))
    by (intros sentence; unfold encode_sentence; now apply mean_pool_total).
  destruct (@traverse_total _ _ _ _ sentences Hpool) as (output & -> & Hall & Hlen).
  cbn [Py.bind]. rewrite (@stack_uniform (size (vectors self))); auto.
  - eexists. split; [reflexivity|].
    unfold nrows, rectangular; cbn [ncols rows]. auto.
  - destruct sentences; [contradiction|]. destruct output; discriminate.
Qed.

End EncodeTotal.

(** ** [StaticEmbedder.from_vectors] *)

Section FromVectorsFacts.

Import StaticEmbedder.

Variable safe_load_reach : string -> result Reach.
Variable PCA_fit_transform : nat -> ndarray2 -> result ndarray2.
Variable word_frequency : string -> string -> R.
Variable create_tokenizer_from_vocab : list string -> string -> string -> Tokenizer.

Local Abbreviation from_vectors :=
  (StaticEmbedder.from_vectors safe_load_reach PCA_fit_transform word_frequency
     create_tokenizer_from_vocab).
Local Abbreviation loaded_table :=
  (StaticEmbedder.loaded_table safe_load_reach PCA_fit_transform).
Local Abbreviation frequency_weights := (StaticEmbedder.frequency_weights word_frequency).

(** [from_vectors] first builds [loaded_table], and looks at the weighting
    flags after that. *)
Lemma from_vectors_after_loading (path : string)
    (apply_pca apply_zipf apply_frequency : bool) :
  from_vectors path apply_pca apply_zipf apply_frequency
  = (table <- loaded_table path apply_pca ;;
     if apply_zipf && apply_frequency
     then Raise (ValueError "Cannot apply both zipf and frequency weighting.")
     else
       weighted <- (if apply_zipf
                    then X <- imul_column (_vectors table)
                                          (log_arange 1 (len table)) ;;
                         Ok (set_vectors table X)
                    else Ok table) ;;
       weighted <- (if apply_frequency
                    then X <- imul_column (_vectors weighted)
                                          (map (fun w => ln (1 / w)%R)
                                               (frequency_weights weighted)) ;;
                         Ok (set_vectors weighted X)
                    else Ok weighted) ;;
       __init__ weighted
         (create_tokenizer_from_vocab (items weighted) "[UNK]" "[PAD]")).
Proof.
  unfold StaticEmbedder.from_vectors, StaticEmbedder.loaded_table.
  destruct (safe_load_reach path) as [embeddings|e]; [|reflexivity].
  cbn [Py.bind].
  destruct (apply_pca && _); [|reflexivity].
  destruct (PCA_fit_transform 300 _); reflexivity.
Qed.

(** What [loaded_table] returns: the file's table with the two special
    tokens, its array replaced by the PCA output when PCA applies. *)
Lemma loaded_table_inv (path : string) (apply_pca : bool) (table : Reach) :
  loaded_table path apply_pca = Ok table ->
  exists embeddings,
    safe_load_reach path = Ok embeddings
    /\ let with_tokens :=
         add_token_to_reach (add_token_to_reach embeddings "[PAD]" false) "[UNK]" true in
       items table = items with_tokens
       /\ unk_index table = unk_index with_tokens
       /\ (table = with_tokens /\ apply_pca && (300 <? size with_tokens) = false
           \/ apply_pca && (300 <? size with_tokens) = true
              /\ PCA_fit_transform 300 (_vectors with_tokens) = Ok (_vectors table)).
Proof.
  unfold StaticEmbedder.loaded_table.
  destruct (safe_load_reach path) as [embeddings|e]; [|discriminate].
  cbn [Py.bind]. intros H. exists embeddings. split; [reflexivity|].
  cbv zeta.
  destruct (apply_pca && _) eqn:Hpca.
  - destruct (PCA_fit_transform 300 _) as [X|e] eqn:HX; [|discriminate].
    inversion H; subst; clear H. cbn [set_vectors items unk_index _vectors].
    repeat split; auto.
  - inversion H; subst; clear H. repeat split; auto.
Qed.

(** A weighting step changes neither the tokens nor the unknown index nor the
    column count. *)
Lemma weighting_step (apply : bool) (table weighted : Reach) (w : vec) :
  (if apply
   then X <- imul_column (_vectors table) w ;; Ok (set_vectors table X)
   else Ok table) = Ok weighted ->
  items weighted = items table
  /\ unk_index weighted = unk_index table
  /\ size weighted = size table
  /\ (rectangular (_vectors table) -> rectangular (_vectors weighted)).
Proof.
  destruct apply.
  - destruct (imul_column (_vectors table) w) as [X|e] eqn:HX; [|discriminate].
    cbn [Py.bind]. intros H; inversion H; subst; clear H.
    destruct (imul_column_shape _ _ HX) as [Hcols Hrect].
    cbn [set_vectors items unk_index _vectors]. unfold size. cbn [_vectors].
    auto.
  - intros H; inversion H; subst. auto.
Qed.

Lemma init_inv (table : Reach) (tokenizer : Tokenizer) (self : StaticEmbedder.t) :
  __init__ table tokenizer = Ok self ->
  vectors self = table
  /\ exists u, unk_index table = Some u /\ index_item table u = Some (unk_token self).
Proof.
  unfold __init__.
  destruct (unk_index table) as [u|]; [|discriminate].
  destruct (index_item table u) as [tok|] eqn:E; [|discriminate].
  intros H; inversion H; subst; cbn [vectors unk_token]. eauto.
Qed.

(** The stages a successful construction went through. *)
Lemma from_vectors_stages (path : string)
    (apply_pca apply_zipf apply_frequency : bool) (self : StaticEmbedder.t) :
  from_vectors path apply_pca apply_zipf apply_frequency = Ok self ->
  exists table weighted,
    loaded_table path apply_pca = Ok table
    /\ apply_zipf && apply_frequency = false
    /\ (if apply_zipf
        then X <- imul_column (_vectors table) (log_arange 1 (len table)) ;;
             Ok (set_vectors table X)
        else Ok table) = Ok weighted
    /\ items (vectors self) = items weighted
    /\ unk_index (vectors self) = unk_index weighted
    /\ size (vectors self) = size weighted
    /\ (rectangular (_vectors weighted) -> rectangular (_vectors (vectors self)))
    /\ (apply_frequency = false -> vectors self = weighted)
    /\ exists u, unk_index (vectors self) = Some u
                 /\ index_item (vectors self) u = Some (unk_token self).
Proof.
  rewrite from_vectors_after_loading.
  destruct (loaded_table path apply_pca) as [table|e]; [|discriminate].
  cbn [Py.bind].
  destruct (apply_zipf && apply_frequency); [discriminate|].
  match goal with
  | |- Py.bind ?stage _ = _ -> _ => destruct stage as [weighted|e] eqn:Hzipf
  end; [|discriminate].
  cbn [Py.bind].
  match goal with
  | |- Py.bind ?stage _ = _ -> _ => destruct stage as [final|e] eqn:Hfreq
  end; [|discriminate].
  cbn [Py.bind]. intros Hinit.
  destruct (init_inv _ _ Hinit) as [Hvec Hunk].
  destruct (weighting_step _ _ _ Hfreq) as (Hitems & Hidx & Hsize & Hrect).
  exists table, weighted. rewrite Hvec.
  repeat (split; [solve [auto]|]).
  split.
  - intros ->. now inversion Hfreq.
  - exact Hunk.
Qed.

Lemma set_nth_length (idx : nat) (x : R) (w : vec) :
  length (StaticEmbedder.set_nth idx x w) = length w.
Proof.
  revert idx; induction w as [|y w IH]; intros [|idx]; simpl; auto.
Qed.

Lemma frequency_weights_length (table : Reach) :
  length (frequency_weights table) = len table.
Proof.
  unfold StaticEmbedder.frequency_weights.
  generalize (combine (seq 0 (length (sorted_items table))) (sorted_items table)).
  intros pairs. rewrite <- (zeros_length (len table)) at 2.
  generalize (zeros (len table)). induction pairs as [|[idx word] pairs IH];
    intros weight; simpl.
  - reflexivity.
  - now rewrite IH, set_nth_length.
Qed.

(** X9: construction succeeds when the file loads with one row per token,
    at most one weighting is requested, and PCA, where it applies, succeeds
    and returns one row per row of its input. *)
Theorem from_vectors_succeeds (path : string)
    (apply_pca apply_zipf apply_frequency : bool) (embeddings : Reach) :
  let with_tokens :=
    add_token_to_reach (add_token_to_reach embeddings "[PAD]" false) "[UNK]" true in
  safe_load_reach path = Ok embeddings ->
  nrows (_vectors embeddings) = len embeddings ->
  (apply_pca = true -> 300 < size embeddings ->
   exists Y, PCA_fit_transform 300 (_vectors with_tokens) = Ok Y
             /\ nrows Y = nrows (_vectors with_tokens)) ->
  apply_zipf && apply_frequency = false ->
  exists self, from_vectors path apply_pca apply_zipf apply_frequency = Ok self.
Proof.
  intros with_tokens Hload Hrows Hpca Hflags.
  rewrite from_vectors_after_loading, Hflags.
  unfold StaticEmbedder.loaded_table. rewrite Hload. cbn [Py.bind].
  fold with_tokens.
  assert (Hrows0 : nrows (_vectors with_tokens) = len with_tokens)
    by (unfold with_tokens; now repeat apply add_token_rows).
  destruct (add_token_sets_unk (add_token_to_reach embeddings "[PAD]" false) "[UNK]")
    as (u & Hu & Hat). fold with_tokens in Hu, Hat.
  assert (Htable : exists table,
             (if apply_pca && (300 <? size with_tokens)
              then X <- PCA_fit_transform 300 (_vectors with_tokens) ;;
                   Ok (set_vectors with_tokens X)
              else Ok with_tokens) = Ok table
             /\ nrows (_vectors table) = len table
             /\ unk_index table = Some u
             /\ index_item table u = Some "[UNK]"%string).
  { destruct (apply_pca && (300 <? size with_tokens)) eqn:Hcond.
    - apply andb_prop in Hcond as [Ha Hlt]. apply Nat.ltb_lt in Hlt.
      unfold with_tokens in Hlt. rewrite !add_token_size in Hlt.
      destruct (Hpca Ha Hlt) as (Y & -> & HY).
      cbn [Py.bind]. eexists. split; [reflexivity|].
      unfold len, index_item in *.
      cbn [set_vectors _vectors unk_index items]. repeat split; congruence.
    - eexists. split; [reflexivity|]. auto. }
  destruct Htable as (table & -> & Hrows1 & Hu1 & Hat1). cbn [Py.bind].
  assert (Hzipf : exists weighted,
             (if apply_zipf
              then X <- imul_column (_vectors table) (log_arange 1 (len table)) ;;
                   Ok (set_vectors table X)
              else Ok table) = Ok weighted
             /\ nrows (_vectors weighted) = len weighted
             /\ unk_index weighted = Some u
             /\ index_item weighted u = Some "[UNK]"%string).
  { destruct apply_zipf.
    - destruct (@imul_column_rows (_vectors table) (log_arange 1 (len table)))
        as (X & -> & HX).
      { unfold log_arange. now rewrite length_map, length_seq. }
      cbn [Py.bind]. eexists. split; [reflexivity|].
      unfold len, index_item in *.
      cbn [set_vectors _vectors unk_index items]. repeat split; congruence.
    - eexists. split; [reflexivity|]. auto. }
  destruct Hzipf as (weighted & -> & Hrows2 & Hu2 & Hat2). cbn [Py.bind].
  assert (Hfreq : exists final,
             (if apply_frequency
              then X <- imul_column (_vectors weighted)
                                    (map (fun w => ln (1 / w)%R)
                                         (frequency_weights weighted)) ;;
                   Ok (set_vectors weighted X)
              else Ok weighted) = Ok final
             /\ unk_index final = Some u
             /\ index_item final u = Some "[UNK]"%string).
  { destruct apply_frequency.
    - destruct (@imul_column_rows (_vectors weighted)
                  (map (fun w => ln (1 / w)%R) (frequency_weights weighted)))
        as (X & -> & HX).
      { now rewrite length_map, frequency_weights_length. }
      cbn [Py.bind]. eexists. split; [reflexivity|].
      unfold index_item in *. cbn [set_vectors unk_index items]. auto.
    - eexists. split; [reflexivity|]. auto. }
  destruct Hfreq as (final & -> & Hu3 & Hat3). cbn [Py.bind].
  unfold StaticEmbedder.__init__. rewrite Hu3, Hat3. eauto.
Qed.

(** C1 (amended): with both weightings requested, [from_vectors] never
    returns an embedder.  It raises the [ValueError] "Cannot apply both zipf
    and frequency weighting." once the table is loaded, has its special
    tokens and is reduced by PCA; an exception of one of these earlier steps
    comes out unchanged instead. *)
Theorem both_weightings_rejected (path : string) (apply_pca : bool) :
  from_vectors path apply_pca true true
  = match loaded_table path apply_pca with
    | Ok _ => Raise (ValueError "Cannot apply both zipf and frequency weighting.")
    | Raise e => Raise e
    end
  /\ exists e, from_vectors path apply_pca true true = Raise e.
Proof.
  rewrite from_vectors_after_loading.
  destruct (loaded_table path apply_pca) as [table|e]; cbn [Py.bind andb];
    split; eauto.
Qed.

(** C7: whatever the flags, an embedder returned by [from_vectors] has both
    ["[PAD]"] and ["[UNK]"] in its table, and ["[UNK]"] is its unknown token:
    the table's unknown index points at it. *)
Theorem from_vectors_has_special_tokens (path : string)
    (apply_pca apply_zipf apply_frequency : bool) (self : StaticEmbedder.t) :
  from_vectors path apply_pca apply_zipf apply_frequency = Ok self ->
  In "[PAD]"%string (items (vectors self))
  /\ In "[UNK]"%string (items (vectors self))
  /\ unk_token self = "[UNK]"%string
  /\ exists u, unk_index (vectors self) = Some u
               /\ index_item (vectors self) u = Some "[UNK]"%string.
Proof.
  intros H.
  destruct (from_vectors_stages _ _ _ _ H)
    as (table & weighted & Htable & _ & Hzipf & Hitems & Hidx & _ & _ & _ & Hunk).
  destruct (weighting_step _ _ _ Hzipf) as (Hitems' & Hidx' & _ & _).
  destruct (loaded_table_inv _ _ Htable) as (embeddings & _ & Hit0 & Hidx0 & _).
  set (with_pad := add_token_to_reach embeddings "[PAD]" false) in *.
  set (with_tokens := add_token_to_reach with_pad "[UNK]" true) in *.
  assert (Hsame : items (vectors self) = items with_tokens) by congruence.
  assert (Hsame_unk : unk_index (vectors self) = unk_index with_tokens) by congruence.
  destruct (add_token_sets_unk with_pad "[UNK]") as (u & Hu & Hat).
  fold with_tokens in Hu, Hat.
  assert (Hunk_token : unk_token self = "[UNK]"%string).
  { destruct Hunk as (u' & Hu' & Hat').
    unfold index_item in *. rewrite Hsame in Hat'. congruence. }
  rewrite Hsame. repeat split.
  - apply add_token_keeps, add_token_has.
  - apply add_token_has.
  - exact Hunk_token.
  - exists u. unfold index_item in *. rewrite Hsame. split; congruence.
Qed.

(** C3: with [apply_pca=True], an embedder returned by [from_vectors] has
    dimensionality exactly 300 when the loaded table's dimensionality exceeds
    300, and the loaded table's dimensionality otherwise; every row of its
    array has that many entries.  PCA enters through its shape contract: a
    fit with [k] components returns rows of [k] entries. *)
Theorem from_vectors_dimension (path : string) (apply_zipf apply_frequency : bool)
    (embeddings : Reach) (self : StaticEmbedder.t) :
  (forall k X Y, PCA_fit_transform k X = Ok Y -> ncols Y = k /\ rectangular Y) ->
  safe_load_reach path = Ok embeddings ->
  rectangular (_vectors embeddings) ->
  from_vectors path true apply_zipf apply_frequency = Ok self ->
  (300 < size embeddings -> size (vectors self) = 300)
  /\ (size embeddings <= 300 -> size (vectors self) = size embeddings)
  /\ rectangular (_vectors (vectors self)).
Proof.
  intros Hpca Hload Hrect H.
  destruct (from_vectors_stages _ _ _ _ H)
    as (table & weighted & Htable & _ & Hzipf & _ & _ & Hsize & Hrect_f & _ & _).
  destruct (weighting_step _ _ _ Hzipf) as (_ & _ & Hsize_z & Hrect_z).
  destruct (loaded_table_inv _ _ Htable) as (loaded & Hload' & _ & _ & Hstage).
  rewrite Hload in Hload'. inversion Hload'; subst loaded; clear Hload'.
  set (with_tokens :=
         add_token_to_reach (add_token_to_reach embeddings "[PAD]" false) "[UNK]" true)
    in *.
  assert (Hsize0 : size with_tokens = size embeddings)
    by (unfold with_tokens; now rewrite !add_token_size).
  assert (Hrect0 : rectangular (_vectors with_tokens))
    by (unfold with_tokens; now repeat apply add_token_rectangular).
  rewrite Hsize, Hsize_z.
  destruct Hstage as [[-> Hno]|[Hyes HX]].
  - cbn [andb] in Hno. apply Nat.ltb_ge in Hno.
    repeat split; auto; lia.
  - cbn [andb] in Hyes. apply Nat.ltb_lt in Hyes.
    destruct (Hpca _ _ _ HX) as [Hcols HrectX].
    unfold size in *. repeat split; auto; lia.
Qed.

(** C10: under [apply_zipf], row [i] (from 0) of the table is multiplied by
    [log(i + 1)]; the first row, multiplied by [log 1 = 0], becomes the zero
    vector. *)
Theorem zipf_scales_row_by_log_rank (path : string) (apply_pca : bool)
    (table : Reach) (self : StaticEmbedder.t) :
  loaded_table path apply_pca = Ok table ->
  from_vectors path apply_pca true false = Ok self ->
  (forall i row,
     nth_error (rows (_vectors table)) i = Some row ->
     nth_error (rows (_vectors (vectors self))) i
     = Some (map (fun x => (x * ln (INR (i + 1)))%R) row))
  /\ (forall row,
        nth_error (rows (_vectors table)) 0 = Some row ->
        nth_error (rows (_vectors (vectors self))) 0 = Some (zeros (length row))).
Proof.
  intros Htable H.
  destruct (from_vectors_stages _ _ _ _ H)
    as (table' & weighted & Htable' & _ & Hzipf & _ & _ & _ & _ & Hfinal & _).
  rewrite Htable in Htable'. inversion Htable'; subst table'; clear Htable'.
  rewrite (Hfinal eq_refl).
  destruct (loaded_table_inv _ _ Htable) as (embeddings & _ & Hitems & _ & _).
  assert (Hlen : 2 <= len table).
  { unfold len. rewrite Hitems.
    apply (@two_distinct_members "[PAD]" "[UNK]"); [discriminate| |].
    - apply add_token_keeps, add_token_has.
    - apply add_token_has. }
  assert (Hrows : rows (_vectors weighted)
                  = scale_rows (rows (_vectors table))
                      (log_arange 1 (length (rows (_vectors table))))).
  { unfold imul_column in Hzipf.
    assert (Hw : length (log_arange 1 (len table)) = len table)
      by (unfold log_arange; now rewrite length_map, length_seq).
    rewrite Hw in Hzipf.
    destruct (Nat.eqb_spec (len table) (nrows (_vectors table))) as [Heq|Hne].
    - inversion Hzipf; subst weighted. cbn [set_vectors _vectors rows].
      now rewrite Heq.
    - destruct (log_arange 1 (len table)) as [|w0 [|w1 ws]] eqn:Hlog;
        simpl in Hw; try lia; discriminate. }
  assert (Hrow : forall i row,
             nth_error (rows (_vectors table)) i = Some row ->
             nth_error (rows (_vectors weighted)) i
             = Some (scale (ln (INR (i + 1))) row)).
  { intros i row Hi. rewrite Hrows, (scale_rows_log_arange _ 1 _ Hi).
    now rewrite (Nat.add_comm 1 i). }
  split.
  - intros i row Hi. now apply Hrow.
  - intros row H0. rewrite (Hrow 0 row H0). now rewrite scale_by_log_one.
Qed.

End FromVectorsFacts.

(** ** The adapters on concrete inputs *)

Section Runs.

Import Fixtures.
Local Open Scope string_scope.
Local Open Scope list_scope.

Lemma leading_components_shape (k : nat) (X Y : ndarray2) :
  leading_components k X = Ok Y -> ncols Y = k /\ rectangular Y.
Proof.
  unfold leading_components, rectangular.
  destruct (k <=? Nat.min (nrows X) (ncols X))%nat; [|discriminate].
  intros H; inversion H; subst; cbn [ncols rows]. split; [reflexivity|].
  apply Forall_forall. intros row Hin.
  apply in_map_iff in Hin. destruct Hin as [row0 [<- _]].
  rewrite length_firstn, length_app, zeros_length. lia.
Qed.

Lemma safe_load_reach_rectangular (fs : filesystem) (path : string) (r : Reach) :
  safe_load_reach fs path = Ok r -> rectangular (_vectors r).
Proof.
  unfold safe_load_reach, rectangular.
  destruct (lookup fs path) as [lines|]; [|discriminate].
  cbv zeta.
  match goal with
  | |- context [forallb ?p lines] => destruct (forallb p lines) eqn:Hall
  end; [|discriminate].
  intros H; inversion H; subst; cbn [_vectors ncols rows].
  apply Forall_forall. intros row Hin.
  apply in_map_iff in Hin. destruct Hin as [line [<- Hline]].
  rewrite forallb_forall in Hall. apply Nat.eqb_eq. now apply Hall.
Qed.

(** C1 (counterexample): with both weightings requested, a missing file and
    a malformed file make [from_vectors] raise the loader's exception, and a
    table with fewer rows than 300 makes it raise PCA's: none of them is the
    error about the two weightings. *)
Lemma loader_failure_precedes_flag_check :
  Fixtures.from_vectors disk "missing.vec" true true true
  = Raise (FileNotFoundError "missing.vec")
  /\ Fixtures.from_vectors disk "ragged.vec" true true true
     = Raise (ValueError "malformed vector file")
  /\ Fixtures.from_vectors disk "short_wide.vec" true true true
     = Raise (ValueError "n_components must be between 0 and min(n_samples, n_features)")
  /\ Fixtures.from_vectors disk "missing.vec" true true true
     <> Raise (ValueError "Cannot apply both zipf and frequency weighting.").
Proof.
  assert (Hmissing : Fixtures.from_vectors disk "missing.vec" true true true
                     = Raise (FileNotFoundError "missing.vec"))
    by (vm_compute; reflexivity).
  split; [exact Hmissing|].
  split; [vm_compute; reflexivity|].
  split; [vm_compute; reflexivity|].
  rewrite Hmissing. discriminate.
Qed.

(** On a file that loads, the flag check is reached. *)
Lemma both_weightings_on_a_good_file :
  Fixtures.from_vectors disk "ab.vec" true true true
  = Raise (ValueError "Cannot apply both zipf and frequency weighting.").
Proof. vm_compute. reflexivity. Qed.

Lemma encode_singleton_agrees_with_call_witness :
  length (StaticEmbedder.known_tokens ab_embedder "a zz b") <= 512
  /\ StaticEmbedder.encode ab_embedder ["a zz b"]
     = (v <- StaticEmbedder.__call__ ab_embedder "a zz b" ;;
        Ok {| ncols := length v; rows := [v] |}).
Proof.
  split; [vm_compute; lia|].
  apply (@encode_singleton_agrees_with_call ab_embedder "a zz b").
  vm_compute; lia.
Defined.

Lemma encode_preserves_order_witness :
  exists out,
    StaticEmbedder.encode ab_embedder ["a"; "zz b"; ""] = Ok out
    /\ nrows out = 3
    /\ forall i sentence,
         nth_error ["a"; "zz b"; ""] i = Some sentence ->
         exists v, StaticEmbedder.encode_sentence ab_embedder sentence = Ok v
                   /\ nth_error (rows out) i = Some v.
Proof.
  eexists. split; [reflexivity|].
  apply (@encode_preserves_order ab_embedder ["a"; "zz b"; ""]).
  reflexivity.
Defined.

(** The order of the two steps shows: after 512 unknown words, the word
    ["b"] is pooled, while truncating first would leave nothing. *)
Lemma filter_runs_before_truncation :
  StaticEmbedder.drop_then_truncate ab_embedder unknowns_then_b = ["b"]
  /\ StaticEmbedder.truncate_then_drop ab_embedder unknowns_then_b = [].
Proof. split; vm_compute; reflexivity. Qed.

Lemma ab_model_row_wise :
  TorchEncoder.row_wise ab_model 1
    (fun s => mean0 {| ncols := 1;
                       rows := map (fun i => nth i [[0%R]; [1%R]] (zeros 1))
                                   (char_ids s) |}).
Proof.
  intros batch _. cbn [ab_model TorchEncoder.forward TorchEncoder.tokenize].
  now rewrite map_map.
Qed.



Lemma from_vectors_dimension_witness :
  exists embeddings self,
    safe_load_reach disk "wide.vec" = Ok embeddings
    /\ Fixtures.from_vectors disk "wide.vec" true false false = Ok self
    /\ size embeddings = 301
    /\ (300 < size embeddings -> size (StaticEmbedder.vectors self) = 300)
    /\ (size embeddings <= 300 -> size (StaticEmbedder.vectors self) = size embeddings)
    /\ rectangular (_vectors (StaticEmbedder.vectors self)).
Proof.
  unfold Fixtures.from_vectors.
  destruct (safe_load_reach disk "wide.vec") as [embeddings|e] eqn:Hload;
    [|vm_compute in Hload; discriminate].
  destruct (StaticEmbedder.from_vectors (safe_load_reach disk) leading_components
              uniform_frequency create_tokenizer_from_vocab "wide.vec"
              true false false) as [self|e] eqn:Hself;
    [|vm_compute in Hself; discriminate].
  exists embeddings, self.
  split; [reflexivity|]. split; [reflexivity|]. split.
  - pose proof Hload as Hvalue. vm_compute in Hvalue.
    injection Hvalue as <-. reflexivity.
  - apply (@from_vectors_dimension (safe_load_reach disk) leading_components
             uniform_frequency create_tokenizer_from_vocab "wide.vec" false false).
    + exact leading_components_shape.
    + exact Hload.
    + exact (safe_load_reach_rectangular _ _ Hload).
    + exact Hself.
Defined.

Lemma from_vectors_has_special_tokens_witness :
  exists self,
    Fixtures.from_vectors disk "ab.vec" true true false = Ok self
    /\ In "[PAD]" (items (StaticEmbedder.vectors self))
    /\ In "[UNK]" (items (StaticEmbedder.vectors self))
    /\ StaticEmbedder.unk_token self = "[UNK]"
    /\ exists u, unk_index (StaticEmbedder.vectors self) = Some u
                 /\ index_item (StaticEmbedder.vectors self) u = Some "[UNK]".
Proof.
  eexists. split; [reflexivity|].
  apply (@from_vectors_has_special_tokens (safe_load_reach disk) leading_components
           uniform_frequency create_tokenizer_from_vocab "ab.vec" true true false).
  reflexivity.
Defined.

Lemma zipf_scales_row_by_log_rank_witness :
  exists table self,
    Fixtures.loaded_table disk "ab.vec" true = Ok table
    /\ Fixtures.from_vectors disk "ab.vec" true true false = Ok self
    /\ rows (_vectors table) = [[0%R]; [1%R]; [0%R]; [0%R]]
    /\ (forall i row,
          nth_error (rows (_vectors table)) i = Some row ->
          nth_error (rows (_vectors (StaticEmbedder.vectors self))) i
          = Some (map (fun x => (x * ln (INR (i + 1)))%R) row))
    /\ (forall row,
          nth_error (rows (_vectors table)) 0 = Some row ->
          nth_error (rows (_vectors (StaticEmbedder.vectors self))) 0
          = Some (zeros (length row))).
Proof.
  eexists. eexists.
  split; [reflexivity|]. split; [reflexivity|]. split; [reflexivity|].
  apply (@zipf_scales_row_by_log_rank (safe_load_reach disk) leading_components
           uniform_frequency create_tokenizer_from_vocab "ab.vec" true);
    reflexivity.
Defined.

End Runs.

(** ** Further properties of [StaticEmbedder] *)

Section StaticEmbedderMore.

Import StaticEmbedder Fixtures.
Local Open Scope string_scope.
Local Open Scope list_scope.

Lemma traverse_app {A B : Type} (f : A -> result B) (xs ys : list A) :
  Py.traverse f (xs ++ ys)
  = (a <- Py.traverse f xs ;; b <- Py.traverse f ys ;; Ok (a ++ b)).
Proof.
  induction xs as [|x xs IH]; simpl.
  - destruct (Py.traverse f ys); reflexivity.
  - destruct (f x) as [y|e]; [|reflexivity].
    rewrite IH. destruct (Py.traverse f xs) as [a|e]; simpl; [|reflexivity].
    destruct (Py.traverse f ys); reflexivity.
Qed.

Lemma stack_inv (arrays : list vec) (out : ndarray2) :
  Np.stack arrays = Ok out ->
  rows out = arrays /\ arrays <> []
  /\ Forall (fun v => length v = ncols out) arrays.
Proof.
  unfold Np.stack. destruct arrays as [|a rest]; [discriminate|].
  destruct (forallb (fun b => (length b =? length a)%nat) rest) eqn:Hall;
    [|discriminate].
  intros H; inversion H; subst; cbn [rows ncols].
  split; [reflexivity|]. split; [discriminate|].
  constructor; [reflexivity|].
  apply Forall_forall. intros b Hb.
  rewrite forallb_forall in Hall. apply Nat.eqb_eq. now apply Hall.
Qed.

Lemma ab_table_well_formed : well_formed ab_table.
Proof.
  split; [reflexivity|]. unfold rectangular. cbn [ab_table _vectors rows ncols].
  repeat constructor.
Qed.

Lemma ab_table_unk_inside :
  forall u, unk_index ab_table = Some u -> u < len ab_table.
Proof.
  intros u H. injection H as <-. unfold len; simpl. lia.
Qed.

Lemma encode_returns_an_array_witness :
  exists out, encode ab_embedder ["a"; "zz b"] = Ok out
              /\ ncols out = size (vectors ab_embedder)
              /\ nrows out = length ["a"; "zz b"]
              /\ rectangular out.
Proof.
  apply (@encode_returns_an_array ab_embedder ["a"; "zz b"]).
  - exact ab_table_well_formed.
  - exact ab_table_unk_inside.
  - discriminate.
Defined.

(** X2: a text that tokenizes to unknown tokens only, or to nothing, gets
    the zero vector of the table's size from both paths ([mean_pool] runs
    without its safeguard). *)
Theorem unknown_text_gets_zero_vector (self : StaticEmbedder.t) (text : string) :
  Forall (fun token => token = unk_token self) (tokenize (tokenizer self) text) ->
  __call__ self text = Ok (zeros (size (vectors self)))
  /\ encode self [text]
     = Ok {| ncols := size (vectors self); rows := [zeros (size (vectors self))] |}.
Proof.
  intros Hunk.
  assert (Hnone : known_tokens self text = []).
  { unfold known_tokens.
    induction Hunk as [|token tokens Htoken _ IH]; simpl.
    - reflexivity.
    - subst token. now rewrite String.eqb_refl. }
  assert (Hcall : __call__ self text = Ok (zeros (size (vectors self))))
    by (unfold __call__; now rewrite Hnone).
  split; [exact Hcall|].
  rewrite encode_traverse. cbn [Py.traverse].
  replace (encode_sentence self text) with (__call__ self text).
  - rewrite Hcall. cbn [Py.bind]. unfold Np.stack. cbn [forallb].
    now rewrite zeros_length.
  - unfold encode_sentence, __call__. rewrite Hnone.
    now rewrite slice_prefix by lia.
Qed.

Lemma unknown_text_gets_zero_vector_witness :
  __call__ ab_embedder "zz qq" = Ok (zeros (size (vectors ab_embedder)))
  /\ encode ab_embedder ["zz qq"]
     = Ok {| ncols := size (vectors ab_embedder);
             rows := [zeros (size (vectors ab_embedder))] |}.
Proof.
  apply (@unknown_text_gets_zero_vector ab_embedder "zz qq").
  vm_compute. repeat constructor.
Defined.

(** X3: [encode] distributes over concatenation of sentence lists: when two
    lists encode to arrays of the same width, their concatenation encodes to
    the rows of the first followed by the rows of the second. *)
Theorem encode_of_concatenation (self : StaticEmbedder.t)
    (first second : list string) (A B : ndarray2) :
  encode self first = Ok A ->
  encode self second = Ok B ->
  ncols A = ncols B ->
  encode self (first ++ second) = Ok {| ncols := ncols A; rows := rows A ++ rows B |}.
Proof.
  rewrite !encode_traverse, traverse_app.
  destruct (Py.traverse (encode_sentence self) first) as [va|e]; [|discriminate].
  destruct (Py.traverse (encode_sentence self) second) as [vb|e]; [|discriminate].
  cbn [Py.bind]. intros HA HB Hcols.
  destruct (stack_inv _ HA) as (HrA & Hne & HallA).
  destruct (stack_inv _ HB) as (HrB & _ & HallB).
  rewrite HrA, HrB. apply stack_uniform.
  - intros H. apply app_eq_nil in H. tauto.
  - apply Forall_app. split; [assumption|]. now rewrite Hcols.
Qed.

Lemma encode_of_concatenation_witness :
  exists A B,
    encode ab_embedder ["a"] = Ok A
    /\ encode ab_embedder ["b"; "zz"] = Ok B
    /\ encode ab_embedder (["a"] ++ ["b"; "zz"])
       = Ok {| ncols := ncols A; rows := rows A ++ rows B |}.
Proof.
  eexists. eexists. split; [reflexivity|]. split; [reflexivity|].
  apply (@encode_of_concatenation ab_embedder ["a"] ["b"; "zz"]); reflexivity.
Defined.

End StaticEmbedderMore.

(** ** Further properties of [TorchEncoder.encode] *)

Section BatchingMore.

Import TorchEncoder Fixtures.
Local Open Scope string_scope.
Local Open Scope list_scope.

Lemma range_length_tight (n : nat) (step : Z) :
  (0 < step)%Z ->
  Py.range_length 0 (Z.of_nat n) step * Z.to_nat step < n + Z.to_nat step.
Proof.
  intros Hstep. unfold Py.range_length.
  destruct (Z.ltb_spec 0 step) as [_|?]; [|lia].
  destruct (Z.ltb_spec 0 (Z.of_nat n)) as [Hn|Hn]; [|simpl; lia].
  rewrite Z.sub_0_r.
  pose proof (Z.mod_pos_bound (Z.of_nat n - 1) step Hstep) as Hmod.
  pose proof (Z.div_mod (Z.of_nat n - 1) step ltac:(lia)) as Hdiv.
  assert (Hq : (0 <= (Z.of_nat n - 1) / step)%Z) by (apply Z.div_pos; lia).
  nia.
Qed.

Lemma chunk_length (sentences : list string) (size k : nat) :
  length (chunk sentences size k) = Nat.min size (length sentences - k * size).
Proof.
  unfold chunk. now rewrite length_firstn, length_skipn.
Qed.

Lemma traverse_first_failure {A B : Type} (f : A -> result B)
    (before after : list A) (x : A) (e : exn) :
  (forall y, In y before -> exists r, f y = Ok r) ->
  f x = Raise e ->
  Py.traverse f (before ++ x :: after) = Raise e.
Proof.
  intros Hbefore Hx. induction before as [|y before IH]; simpl.
  - now rewrite Hx.
  - destruct (Hbefore y (or_introl eq_refl)) as [r ->].
    rewrite IH; [reflexivity|]. intros z Hz. apply Hbefore. now right.
Qed.

(** X4: a batch size that is not positive never yields a tensor, whatever
    the sentences: zero is rejected by [range], and with a negative step the
    range is empty, so [torch.cat] receives no tensor. *)
Theorem encode_rejects_nonpositive_batch_size (self : TorchEncoder.t)
    (sentences : list string) (batch_size : Z) :
  (batch_size <= 0)%Z ->
  encode self sentences batch_size
  = Raise (if (batch_size =? 0)%Z
           then ValueError "range() arg 3 must not be zero"
           else RuntimeError "torch.cat(): expected a non-empty list of Tensors").
Proof.
  intros Hb. unfold encode, Py.range, Py.range_length.
  destruct (Z.eqb_spec batch_size 0) as [->|Hnz]; [reflexivity|].
  destruct (Z.ltb_spec 0 batch_size) as [?|_]; [lia|].
  destruct (Z.ltb_spec (Z.of_nat (length sentences)) 0) as [?|_]; [lia|].
  reflexivity.
Qed.

Lemma encode_rejects_nonpositive_batch_size_witness :
  encode (__init__ ab_model) ["a"; "b"] (-3)
  = Raise (RuntimeError "torch.cat(): expected a non-empty list of Tensors").
Proof.
  apply (@encode_rejects_nonpositive_batch_size (__init__ ab_model) ["a"; "b"] (-3)).
  lia.
Defined.

(** X5: when the batch size is at least the number of sentences, [encode]
    is one model call on the whole list and returns what that call returns
    or raises, for any model. *)
Theorem encode_in_one_batch (self : TorchEncoder.t) (sentences : list string)
    (batch_size : Z) :
  sentences <> [] ->
  (Z.of_nat (length sentences) <= batch_size)%Z ->
  encode self sentences batch_size
  = forward (model self) (tokenize (model self) sentences).
Proof.
  intros Hne Hb.
  assert (Hlen : 0 < length sentences)
    by (destruct sentences; [contradiction|simpl; lia]).
  rewrite encode_traverse_batches. unfold Py.range, Py.range_length.
  destruct (Z.eqb_spec batch_size 0) as [?|_]; [lia|].
  destruct (Z.ltb_spec 0 batch_size) as [Hpos|?]; [|lia].
  destruct (Z.ltb_spec 0 (Z.of_nat (length sentences))) as [_|?]; [|lia].
  rewrite Z.div_small by lia. change (Z.to_nat (0 + 1)) with 1.
  cbn [seq map Py.bind Py.traverse].
  rewrite batch_slice by assumption. unfold chunk. cbn [Nat.mul skipn].
  rewrite firstn_all2 by lia.
  destruct (forward (model self) (tokenize (model self) sentences)) as [r|e];
    [|reflexivity].
  destruct r as [d xs]. cbn [Py.bind]. unfold Np.cat.
  cbn [forallb concat map rows ncols]. now rewrite app_nil_r.
Qed.

Lemma encode_in_one_batch_witness :
  encode (__init__ padding_model) ["a"; "bbb"] 32
  = forward padding_model (tokenize padding_model ["a"; "bbb"]).
Proof.
  apply (@encode_in_one_batch (__init__ padding_model) ["a"; "bbb"] 32).
  - discriminate.
  - simpl. lia.
Defined.

(** X6: with any row-wise model, [encode] returns the model's row of every
    sentence at the sentence's position, whatever the positive batch size;
    two positive batch sizes give the same tensor. *)
Theorem encode_with_row_wise_model (m : MeanModeler) (d : nat) (f : string -> vec)
    (sentences : list string) (size1 size2 : Z) :
  row_wise m d f ->
  sentences <> [] -> (0 < size1)%Z -> (0 < size2)%Z ->
  exists out,
    encode (__init__ m) sentences size1 = Ok out
    /\ encode (__init__ m) sentences size2 = Ok out
    /\ ncols out = d
    /\ forall i sentence,
         nth_error sentences i = Some sentence ->
         nth_error (rows out) i = Some (f sentence).
Proof.
  intros Hrow Hne H1 H2.
  exists {| ncols := d; rows := map f sentences |}.
  split; [now apply encode_row_wise|]. split; [now apply encode_row_wise|].
  split; [reflexivity|].
  intros i sentence Hi. cbn [rows]. now apply map_nth_error.
Qed.

Lemma encode_with_row_wise_model_witness :
  exists out,
    encode (__init__ ab_model) ["a"; "bbb"; "ab"] 2 = Ok out
    /\ encode (__init__ ab_model) ["a"; "bbb"; "ab"] 32 = Ok out
    /\ ncols out = 1
    /\ forall i sentence,
         nth_error ["a"; "bbb"; "ab"] i = Some sentence ->
         nth_error (rows out) i
         = Some (mean0 {| ncols := 1;
                          rows := map (fun i => nth i [[0%R]; [1%R]] (zeros 1))
                                      (char_ids sentence) |}).
Proof.
  apply (@encode_with_row_wise_model ab_model 1 _ ["a"; "bbb"; "ab"] 2 32).
  - exact ab_model_row_wise.
  - discriminate.
  - lia.
  - lia.
Defined.

(** X7: for a positive batch size and any model, [encode] calls the model
    on ceil(n / size) batches, the chunks of the sentence list in order;
    none of them is empty and none has more than [batch_size] sentences. *)
Theorem batches_are_nonempty_and_bounded (self : TorchEncoder.t)
    (sentences : list string) (batch_size : Z) :
  (0 < batch_size)%Z ->
  exists count,
    encode self sentences batch_size
    = (results <- Py.traverse
                    (fun k => forward (model self)
                                (tokenize (model self)
                                   (chunk sentences (Z.to_nat batch_size) k)))
                    (seq 0 count) ;;
       Np.cat results)
    /\ (forall k, k < count ->
          0 < length (chunk sentences (Z.to_nat batch_size) k)
          /\ length (chunk sentences (Z.to_nat batch_size) k) <= Z.to_nat batch_size)
    /\ length sentences <= count * Z.to_nat batch_size
    /\ count * Z.to_nat batch_size < length sentences + Z.to_nat batch_size.
Proof.
  intros Hb.
  exists (Py.range_length 0 (Z.of_nat (length sentences)) batch_size).
  split; [now apply encode_as_chunks|]. split; [|split].
  - intros k Hk. rewrite chunk_length.
    assert (Hin : k * Z.to_nat batch_size < length sentences)
      by (now apply range_length_inside).
    lia.
  - now apply range_length_covers.
  - now apply range_length_tight.
Qed.

Lemma batches_are_nonempty_and_bounded_witness :
  exists count,
    encode (__init__ ab_model) ["a"; "b"; "c"] 2
    = (results <- Py.traverse
                    (fun k => forward ab_model
                                (tokenize ab_model (chunk ["a"; "b"; "c"] (Z.to_nat 2) k)))
                    (seq 0 count) ;;
       Np.cat results)
    /\ (forall k, k < count ->
          0 < length (chunk ["a"; "b"; "c"] (Z.to_nat 2) k)
          /\ length (chunk ["a"; "b"; "c"] (Z.to_nat 2) k) <= Z.to_nat 2)
    /\ length ["a"; "b"; "c"] <= count * Z.to_nat 2
    /\ count * Z.to_nat 2 < length ["a"; "b"; "c"] + Z.to_nat 2.
Proof.
  apply (@batches_are_nonempty_and_bounded (__init__ ab_model) ["a"; "b"; "c"] 2).
  lia.
Defined.

(** X8: when the model raises on a batch and has returned on every batch
    before it, [encode] raises that exception: no partial tensor comes out. *)
Theorem encode_raises_what_the_model_raises (self : TorchEncoder.t)
    (sentences : list string) (batch_size : Z) (k : nat) (e : exn) :
  (0 < batch_size)%Z ->
  k * Z.to_nat batch_size < length sentences ->
  (forall j, j < k ->
     exists r, forward (model self)
                 (tokenize (model self) (chunk sentences (Z.to_nat batch_size) j))
               = Ok r) ->
  forward (model self)
    (tokenize (model self) (chunk sentences (Z.to_nat batch_size) k)) = Raise e ->
  encode self sentences batch_size = Raise e.
Proof.
  intros Hb Hk Hbefore Hfail. rewrite encode_traverse_batches.
  unfold Py.range. destruct (Z.eqb_spec batch_size 0) as [?|_]; [lia|].
  cbn [Py.bind].
  set (count := Py.range_length 0 (Z.of_nat (length sentences)) batch_size).
  assert (Hcount : k < count).
  { pose proof (@range_length_covers (length sentences) batch_size Hb) as Hcover.
    fold count in Hcover. nia. }
  replace count with (k + S (count - S k)) by lia.
  rewrite seq_app, map_app. cbn [seq map Nat.add].
  rewrite (@traverse_first_failure _ _ _ _ _ _ e); [reflexivity| |].
  - intros i Hi. apply in_map_iff in Hi. destruct Hi as [j [<- Hj]].
    apply in_seq in Hj. rewrite batch_slice by assumption.
    apply Hbefore. lia.
  - now rewrite batch_slice by assumption.
Qed.

Lemma encode_raises_what_the_model_raises_witness :
  encode (__init__ fragile_model) ["a"; ""; "b"] 1
  = Raise (RuntimeError "empty sequence").
Proof.
  apply (@encode_raises_what_the_model_raises (__init__ fragile_model)
           ["a"; ""; "b"] 1 1).
  - lia.
  - simpl. lia.
  - intros j Hj. assert (j = 0) as -> by lia. eexists. reflexivity.
  - reflexivity.
Defined.

End BatchingMore.

(** ** Further properties of [from_vectors] and [from_model] *)

Section FromVectorsMore.

Import StaticEmbedder.

Variable safe_load_reach : string -> result Reach.
Variable PCA_fit_transform : nat -> ndarray2 -> result ndarray2.
Variable word_frequency : string -> string -> R.
Variable create_tokenizer_from_vocab : list string -> string -> string -> Tokenizer.

Local Abbreviation from_vectors :=
  (StaticEmbedder.from_vectors safe_load_reach PCA_fit_transform word_frequency
     create_tokenizer_from_vocab).
Local Abbreviation loaded_table :=
  (StaticEmbedder.loaded_table safe_load_reach PCA_fit_transform).
Local Abbreviation frequency_weights := (StaticEmbedder.frequency_weights word_frequency).

Lemma imul_column_nrows (X Y : ndarray2) (w : vec) :
  imul_column X w = Ok Y -> nrows Y = nrows X.
Proof.
  unfold imul_column, nrows.
  destruct (Nat.eqb_spec (length w) (length (rows X))) as [Heq|_].
  - intros H; inversion H; subst; cbn [rows]. now apply scale_rows_length.
  - destruct w as [|w0 [|]]; try discriminate.
    intros H; inversion H; subst; cbn [rows]. apply length_map.
Qed.

(** A column with at least two weights is never broadcast: it scales the
    rows one by one. *)
Lemma imul_column_long (X Y : ndarray2) (w : vec) :
  2 <= length w ->
  imul_column X w = Ok Y ->
  rows Y = scale_rows (rows X) w /\ length w = nrows X.
Proof.
  intros Hw. unfold imul_column.
  destruct (Nat.eqb_spec (length w) (nrows X)) as [Heq|_].
  - intros H; inversion H; subst; cbn [rows]. auto.
  - destruct w as [|w0 [|w1 w]]; simpl in Hw; try lia; discriminate.
Qed.

Lemma scale_rows_nth (xs : list vec) (ws : vec) (i : nat) (row : vec) (w : R) :
  nth_error xs i = Some row ->
  nth_error ws i = Some w ->
  nth_error (scale_rows xs ws) i = Some (scale w row).
Proof.
  revert ws i; induction xs as [|x xs IH]; intros [|w0 ws] [|i] Hx Hw;
    simpl in *; try discriminate.
  - now inversion Hx; inversion Hw.
  - now apply IH.
Qed.

Lemma set_nth_middle (before after : vec) (x y : R) :
  set_nth (length before) x (before ++ y :: after) = before ++ x :: after.
Proof.
  induction before as [|z before IH]; simpl.
  - reflexivity.
  - now rewrite IH.
Qed.

(** The loop over [enumerate(sorted_items)] writes every entry of [weight]:
    entry [i] is the frequency of token [i]. *)
Lemma frequency_weights_values (table : Reach) :
  frequency_weights table = map (fun word => word_frequency word "en") (items table).
Proof.
  unfold StaticEmbedder.frequency_weights, sorted_items, len, zeros.
  enough (H : forall (words : list string) (before : vec),
             fold_left
               (fun weight '(idx, word) => set_nth idx (word_frequency word "en") weight)
               (combine (seq (length before) (length words)) words)
               (before ++ repeat 0%R (length words))
             = before ++ map (fun word => word_frequency word "en") words)
    by (apply (H (items table) [])).
  induction words as [|word words IH]; intros before; simpl.
  - reflexivity.
  - rewrite set_nth_middle.
    replace (before ++ word_frequency word "en" :: repeat 0%R (length words))
      with ((before ++ [word_frequency word "en"]) ++ repeat 0%R (length words))
      by (now rewrite <- app_assoc).
    replace (S (length before)) with (length (before ++ [word_frequency word "en"]))
      by (rewrite length_app; simpl; lia).
    rewrite IH. now rewrite <- app_assoc.
Qed.

(** The weighting steps and [__init__] leave the row count of the loaded
    table as it is. *)
Lemma from_vectors_row_count (path : string)
    (apply_pca apply_zipf apply_frequency : bool) (self : StaticEmbedder.t) :
  from_vectors path apply_pca apply_zipf apply_frequency = Ok self ->
  exists table,
    loaded_table path apply_pca = Ok table
    /\ nrows (_vectors (vectors self)) = nrows (_vectors table).
Proof.
  rewrite from_vectors_after_loading.
  destruct (loaded_table path apply_pca) as [table|e]; [|discriminate].
  cbn [Py.bind].
  destruct (apply_zipf && apply_frequency); [discriminate|].
  intros H. exists table. split; [reflexivity|].
  assert (Hz : exists weighted,
             (if apply_zipf
              then X <- imul_column (_vectors table) (log_arange 1 (len table)) ;;
                   Ok (set_vectors table X)
              else Ok table) = Ok weighted
             /\ nrows (_vectors weighted) = nrows (_vectors table)).
  { destruct apply_zipf; [|eauto].
    destruct (imul_column (_vectors table) (log_arange 1 (len table))) as [X|e] eqn:HX;
      [|discriminate].
    eexists. split; [reflexivity|]. cbn [set_vectors _vectors].
    eapply imul_column_nrows; eauto. }
  destruct Hz as (weighted & Hw & Hrows). rewrite Hw in H. cbn [Py.bind] in H.
  rewrite <- Hrows.
  destruct apply_frequency.
  - destruct (imul_column (_vectors weighted) _) as [X|e] eqn:HX; [|discriminate].
    cbn [Py.bind] in H. apply init_inv in H. destruct H as [-> _].
    cbn [set_vectors _vectors]. eapply imul_column_nrows; eauto.
  - cbn [Py.bind] in H. apply init_inv in H. destruct H as [-> _]. reflexivity.
Qed.

(** X10: [from_vectors] keeps the table's invariant.  From a loaded table
    with one row per token and rows of one length, and a PCA that returns
    one row of [k] entries per input row, the embedder's table again has one
    row per token and rows of its size, and its unknown index lies inside. *)
Theorem from_vectors_table_is_well_formed (path : string)
    (apply_pca apply_zipf apply_frequency : bool)
    (embeddings : Reach) (self : StaticEmbedder.t) :
  (forall k X Y, PCA_fit_transform k X = Ok Y ->
                 ncols Y = k /\ rectangular Y /\ nrows Y = nrows X) ->
  safe_load_reach path = Ok embeddings ->
  well_formed embeddings ->
  from_vectors path apply_pca apply_zipf apply_frequency = Ok self ->
  well_formed (vectors self)
  /\ exists u, unk_index (vectors self) = Some u /\ u < len (vectors self).
Proof.
  intros Hpca Hload [Hrows Hrect] H.
  destruct (from_vectors_row_count _ _ _ _ H) as (table & Htable & Hcount).
  destruct (from_vectors_stages _ _ _ _ _ _ _ _ H)
    as (table' & weighted & Htable' & _ & Hzipf & Hitems & _ & _ & Hrect_f & _ & Hunk).
  rewrite Htable in Htable'. inversion Htable'; subst table'; clear Htable'.
  destruct (weighting_step _ _ _ Hzipf) as (Hitems_z & _ & _ & Hrect_z).
  destruct (loaded_table_inv _ _ _ _ Htable) as (loaded & Hload' & Hit0 & _ & Hstage).
  rewrite Hload in Hload'. inversion Hload'; subst loaded; clear Hload'.
  set (with_tokens :=
         add_token_to_reach (add_token_to_reach embeddings "[PAD]" false) "[UNK]" true)
    in *.
  assert (Hrows0 : nrows (_vectors with_tokens) = len with_tokens)
    by (unfold with_tokens; now repeat apply add_token_rows).
  assert (Hrect0 : rectangular (_vectors with_tokens))
    by (unfold with_tokens; now repeat apply add_token_rectangular).
  assert (Htable_ok : nrows (_vectors table) = len table
                      /\ rectangular (_vectors table)).
  { unfold len. rewrite Hit0. fold (len with_tokens).
    destruct Hstage as [[-> _]|[_ HX]]; [auto|].
    destruct (Hpca _ _ _ HX) as (_ & HrectX & HrowsX). split; congruence. }
  destruct Htable_ok as [Hrows1 Hrect1].
  split; [split|].
  - rewrite Hcount, Hrows1. unfold len. congruence.
  - auto.
  - destruct Hunk as (u & Hu & Hat). exists u. split; [exact Hu|].
    unfold index_item in Hat. apply nth_error_Some. congruence.
Qed.

(** X11: PCA is not consulted when [apply_pca] is off or the loaded table has
    at most 300 columns: any two PCA routines give the same outcome. *)
Theorem from_vectors_without_pca (other_PCA : nat -> ndarray2 -> result ndarray2)
    (path : string) (apply_pca apply_zipf apply_frequency : bool)
    (embeddings : Reach) :
  safe_load_reach path = Ok embeddings ->
  apply_pca = false \/ size embeddings <= 300 ->
  from_vectors path apply_pca apply_zipf apply_frequency
  = StaticEmbedder.from_vectors safe_load_reach other_PCA word_frequency
      create_tokenizer_from_vocab path apply_pca apply_zipf apply_frequency.
Proof.
  intros Hload Hskip. unfold StaticEmbedder.from_vectors.
  rewrite Hload. cbn [Py.bind].
  replace (apply_pca && (300 <? size (add_token_to_reach
                                       (add_token_to_reach embeddings "[PAD]" false)
                                       "[UNK]" true))) with false; [reflexivity|].
  rewrite !add_token_size. symmetry.
  destruct Hskip as [->|Hsmall]; [reflexivity|].
  apply andb_false_iff. right. apply Nat.ltb_ge. exact Hsmall.
Qed.

(** X12: under [apply_frequency] alone, the row of a token with a positive
    frequency [f] is multiplied by [log(1 / f)], that is by [- log f]. *)
Theorem frequency_scales_row_by_log_inverse (path : string) (apply_pca : bool)
    (table : Reach) (self : StaticEmbedder.t) (i : nat) (token : string) (row : vec) :
  loaded_table path apply_pca = Ok table ->
  from_vectors path apply_pca false true = Ok self ->
  nth_error (sorted_items table) i = Some token ->
  nth_error (rows (_vectors table)) i = Some row ->
  (0 < word_frequency token "en")%R ->
  nth_error (rows (_vectors (vectors self))) i
  = Some (map (fun x => (x * - ln (word_frequency token "en"))%R) row).
Proof.
  intros Htable H Htoken Hrow Hpos.
  rewrite from_vectors_after_loading, Htable in H. cbn [Py.bind andb] in H.
  destruct (imul_column (_vectors table) _) as [X|e] eqn:HX; [|discriminate].
  cbn [Py.bind] in H. apply init_inv in H. destruct H as [-> _].
  cbn [set_vectors _vectors].
  destruct (loaded_table_inv _ _ _ _ Htable) as (embeddings & _ & Hitems & _ & _).
  assert (Hlen : 2 <= len table).
  { unfold len. rewrite Hitems.
    apply (@two_distinct_members "[PAD]" "[UNK]"); [discriminate| |].
    - apply add_token_keeps, add_token_has.
    - apply add_token_has. }
  apply imul_column_long in HX;
    [|now rewrite length_map, frequency_weights_length].
  destruct HX as [-> _].
  rewrite (@scale_rows_nth _ _ _ row (ln (1 / word_frequency token "en"))); auto.
  - unfold scale. do 2 f_equal.
    unfold Rdiv. rewrite Rmult_1_l. now rewrite ln_Rinv.
  - rewrite frequency_weights_values.
    rewrite (map_map (fun word => word_frequency word "en")).
    exact (map_nth_error (fun word => ln (1 / word_frequency word "en")) _ _ Htoken).
Qed.

End FromVectorsMore.

Section FromModelFacts.

Import StaticEmbedder.

Variable from_pretrained : string -> result Tokenizer.
Variable create_input_embeddings_from_model_name :
  string -> option (list string) -> result Reach.

(** X13: [from_model] returns an embedder exactly when the tokenizer loads,
    the embedding table is created and the table's unknown index names one of
    its tokens.  The embedder holds that tokenizer and that table as they
    came (no token is inserted, no PCA, no weighting); its unknown token is
    the token at the unknown index and its name is the table's. *)
Theorem from_model_succeeds_iff (model_name : string)
    (module_path : option (list string)) (self : StaticEmbedder.t) :
  from_model from_pretrained create_input_embeddings_from_model_name
    model_name module_path = Ok self
  <-> exists u,
        from_pretrained model_name = Ok (tokenizer self)
        /\ create_input_embeddings_from_model_name model_name module_path
           = Ok (vectors self)
        /\ unk_index (vectors self) = Some u
        /\ index_item (vectors self) u = Some (unk_token self)
        /\ StaticEmbedder.name self = ReachLib.name (vectors self).
Proof.
  unfold from_model. split.
  - destruct (from_pretrained model_name) as [tok|e]; [|discriminate].
    cbn [Py.bind].
    assert (Hsame : match module_path with
                    | Some p => create_input_embeddings_from_model_name model_name (Some p)
                    | None => create_input_embeddings_from_model_name model_name None
                    end
                    = create_input_embeddings_from_model_name model_name module_path)
      by (destruct module_path; reflexivity).
    rewrite Hsame.
    destruct (create_input_embeddings_from_model_name model_name module_path)
      as [emb|e]; [|discriminate].
    cbn [Py.bind]. unfold __init__.
    destruct (unk_index emb) as [u|] eqn:Hu; [|discriminate].
    destruct (index_item emb u) as [t|] eqn:Ht; [|discriminate].
    intros H; inversion H; subst; cbn [tokenizer vectors unk_token].
    exists u. auto.
  - intros (u & -> & Hemb & Hu & Ht & _).
    cbn [Py.bind].
    replace (match module_path with
             | Some p => create_input_embeddings_from_model_name model_name (Some p)
             | None => create_input_embeddings_from_model_name model_name None
             end) with (Ok (vectors self)) by (destruct module_path; now rewrite Hemb).
    cbn [Py.bind]. unfold __init__. rewrite Hu, Ht. now destruct self.
Qed.

End FromModelFacts.

(** ** [from_vectors] on concrete files *)

Section MoreRuns.

Import Fixtures.
Local Open Scope string_scope.
Local Open Scope list_scope.

Lemma safe_load_reach_well_formed (fs : filesystem) (path : string) (r : Reach) :
  safe_load_reach fs path = Ok r -> well_formed r.
Proof.
  intros H. split; [|now apply (safe_load_reach_rectangular fs path)].
  unfold safe_load_reach in H.
  destruct (lookup fs path) as [lines|]; [|discriminate].
  cbv zeta in H.
  match type of H with
  | context [forallb ?p lines] => destruct (forallb p lines)
  end; [|discriminate].
  inversion H; subst. unfold nrows, len. cbn [_vectors rows items].
  now rewrite !length_map.
Qed.

Lemma leading_components_contract (k : nat) (X Y : ndarray2) :
  leading_components k X = Ok Y ->
  ncols Y = k /\ rectangular Y /\ nrows Y = nrows X.
Proof.
  intros H. destruct (leading_components_shape _ _ H) as [Hcols Hrect].
  split; [assumption|]. split; [assumption|].
  unfold leading_components in H.
  destruct (k <=? Nat.min (nrows X) (ncols X))%nat; [|discriminate].
  inversion H; subst. unfold nrows. cbn [rows]. apply length_map.
Qed.

Lemma from_vectors_succeeds_witness :
  exists self, Fixtures.from_vectors disk "wide.vec" true true false = Ok self.
Proof.
  destruct (safe_load_reach disk "wide.vec") as [embeddings|e] eqn:Hload;
    [|vm_compute in Hload; discriminate].
  apply (@from_vectors_succeeds (safe_load_reach disk) leading_components
           uniform_frequency create_tokenizer_from_vocab "wide.vec"
           true true false embeddings).
  - exact Hload.
  - now destruct (safe_load_reach_well_formed _ _ Hload).
  - intros _ _.
    destruct (leading_components 300
                (_vectors (add_token_to_reach
                             (add_token_to_reach embeddings "[PAD]" false)
                             "[UNK]" true))) as [Y|e'] eqn:HY.
    + exists Y. split; [reflexivity|].
      now destruct (leading_components_contract _ _ HY) as (_ & _ & ?).
    + vm_compute in Hload. injection Hload as <-.
      vm_compute in HY. discriminate.
  - reflexivity.
Defined.

Lemma from_vectors_table_is_well_formed_witness :
  exists self,
    Fixtures.from_vectors disk "wide.vec" true false false = Ok self
    /\ well_formed (StaticEmbedder.vectors self)
    /\ exists u, unk_index (StaticEmbedder.vectors self) = Some u
                 /\ u < len (StaticEmbedder.vectors self).
Proof.
  unfold Fixtures.from_vectors.
  destruct (safe_load_reach disk "wide.vec") as [embeddings|e] eqn:Hload;
    [|vm_compute in Hload; discriminate].
  destruct (StaticEmbedder.from_vectors (safe_load_reach disk) leading_components
              uniform_frequency create_tokenizer_from_vocab "wide.vec"
              true false false) as [self|e] eqn:Hself;
    [|vm_compute in Hself; discriminate].
  exists self. split; [reflexivity|].
  apply (@from_vectors_table_is_well_formed (safe_load_reach disk)
           leading_components uniform_frequency create_tokenizer_from_vocab
           "wide.vec" true false false embeddings self).
  - exact leading_components_contract.
  - exact Hload.
  - exact (safe_load_reach_well_formed _ _ Hload).
  - exact Hself.
Defined.

Lemma from_vectors_without_pca_witness :
  Fixtures.from_vectors disk "ab.vec" true true false
  = StaticEmbedder.from_vectors (safe_load_reach disk) failing_PCA
      uniform_frequency create_tokenizer_from_vocab "ab.vec" true true false.
Proof.
  apply (@from_vectors_without_pca (safe_load_reach disk) leading_components
           uniform_frequency create_tokenizer_from_vocab failing_PCA
           "ab.vec" true true false
           {| items := ["a"; "b"];
              _vectors := {| ncols := 1; rows := [[0%R]; [1%R]] |};
              unk_index := None;
              name := "ab.vec" |}).
  - reflexivity.
  - right. unfold size. simpl. lia.
Defined.

Lemma frequency_scales_row_by_log_inverse_witness :
  exists self,
    Fixtures.from_vectors disk "ab.vec" true false true = Ok self
    /\ nth_error (rows (_vectors (StaticEmbedder.vectors self))) 1
       = Some (map (fun x => (x * - ln (uniform_frequency "b" "en"))%R) [1%R]).
Proof.
  eexists. split; [reflexivity|].
  apply (@frequency_scales_row_by_log_inverse (safe_load_reach disk)
           leading_components uniform_frequency create_tokenizer_from_vocab
           "ab.vec" true ab_table _ 1 "b" [1%R]).
  - reflexivity.
  - reflexivity.
  - reflexivity.
  - reflexivity.
  - unfold uniform_frequency. lra.
Defined.

End MoreRuns.
